(** * Muthonjia Cousins Chama: the rotation draw and its persisted state

    A shallow embedding of the two copies of the wheel page,
    [src/src/app/page.tsx] and [src/unnamed/part_000]: the storage loader
    [loadStoredData], the draw [spinWheel] with its deferred completion, the
    month finalisation [saveMonth] (one version per copy) and [resetChama].

    React state is threaded explicitly: every handler is a function from the
    component state to the next one.  The values a handler obtains from its
    environment ([Math.random()], [new Date()]) are arguments. *)

From Stdlib Require Import List String Ascii Bool Arith ZArith QArith Qround Lia.
Import ListNotations.

Set Warnings "-register-all".
Local Close Scope Q_scope.
Local Open Scope string_scope.

(** ** JavaScript strings and arrays *)

Module JS.

(** Texts are byte strings holding the UTF-8 form of the JavaScript string;
    [===] on well-formed strings is equality of these bytes. *)

Definition code (a : ascii) : N := N_of_ascii a.

(** White space and line terminators of ECMAScript, as [String.prototype.trim]
    strips them: TAB, LF, VT, FF, CR, SP in one byte; U+00A0 in two; U+1680,
    U+2000..U+200A, U+2028, U+2029, U+202F, U+205F, U+3000 and U+FEFF in
    three. *)
Definition isWhite1 (a : ascii) : bool :=
  let x := code a in
  ((9 <=? x) && (x <=? 13) || (x =? 32))%N.

Definition isWhite2 (a b : ascii) : bool :=
  ((code a =? 194) && (code b =? 160))%N.

Definition isWhite3 (a b c : ascii) : bool :=
  let x := code a in let y := code b in let z := code c in
  ((x =? 225) && (y =? 154) && (z =? 128)
   || (x =? 226) && (y =? 128)
      && ((128 <=? z) && (z <=? 138) || (z =? 168) || (z =? 169) || (z =? 175))
   || (x =? 226) && (y =? 129) && (z =? 159)
   || (x =? 227) && (y =? 128) && (z =? 128)
   || (x =? 239) && (y =? 187) && (z =? 191))%N.

(** Drops the white space at the head of [l]; with [back] the list is a
    reversed text, so that the bytes of a character come last byte first. *)
Fixpoint dropWhite (back : bool) (l : list ascii) : list ascii :=
  match l with
  | [] => []
  | a :: l1 =>
      if isWhite1 a then dropWhite back l1 else
      match l1 with
      | [] => l
      | b :: l2 =>
          if (if back then isWhite2 b a else isWhite2 a b)
          then dropWhite back l2 else
          match l2 with
          | [] => l
          | c :: l3 =>
              if (if back then isWhite3 c b a else isWhite3 a b c)
              then dropWhite back l3 else l
          end
      end
  end.

Definition trim (s : string) : string :=
  string_of_list_ascii
    (rev (dropWhite true (rev (dropWhite false (list_ascii_of_string s))))).

(** [toLowerCase] on the letters A..Z.  The other characters are left as they
    are: none of them lower-cases to one of the ASCII letters, which is all
    the comparisons below look at. *)
Definition lowerChar (a : ascii) : ascii :=
  let x := code a in
  if ((65 <=? x) && (x <=? 90))%N then ascii_of_N (x + 32) else a.

Fixpoint toLowerCase (s : string) : string :=
  match s with
  | EmptyString => EmptyString
  | String a s' => String (lowerChar a) (toLowerCase s')
  end.

(** [Array.prototype.findIndex]; [None] stands for [-1]. *)
Fixpoint findIndex {A : Type} (p : A -> bool) (l : list A) : option nat :=
  match l with
  | [] => None
  | x :: l' => if p x then Some 0 else option_map S (findIndex p l')
  end.

Definition indexOf (l : list string) (x : string) : option nat :=
  findIndex (String.eqb x) l.

Definition includes (l : list string) (x : string) : bool :=
  existsb (String.eqb x) l.

(** [copy[i] = v] on a copy of [l].  The inputs are rendered from the array,
    so [i] is one of its indices; for an index past the end JavaScript would
    extend the array, which is not modelled: the list is left as it is. *)
Fixpoint setAt {A : Type} (i : nat) (v : A) (l : list A) : list A :=
  match l, i with
  | [], _ => []
  | _ :: l', O => v :: l'
  | x :: l', S i' => x :: setAt i' v l'
  end.

(** [l.map((x, i) => f(i, x))] *)
Fixpoint mapiFrom {A B : Type} (f : nat -> A -> B) (i : nat) (l : list A)
  : list B :=
  match l with
  | [] => []
  | x :: l' => f i x :: mapiFrom f (S i) l'
  end.

Definition mapi {A B : Type} (f : nat -> A -> B) (l : list A) : list B :=
  mapiFrom f 0 l.

End JS.

(** ** Constants of both copies *)

Definition TOTAL_MEMBERS : nat := 10.
Definition EXPIRY_DAYS : Z := 7.

Definition MONTHS : list string :=
  ["January"; "February"; "March"; "April"; "May"; "June";
   "July"; "August"; "September"; "October"; "November"; "December"].

Definition DEFAULT_EMOJIS : list string :=
  ["🦁"; "🐵"; "🐸"; "🦊"; "🐼"; "🐷"; "🐨"; "🐯"; "🐔"; "🐙"].

Definition PARTY : string := "🎉".

(** ** The persisted state store: [loadStoredData] *)

Module Store.

(** A parsed JSON value.  A number is the rational its double stands for. *)
Inductive JSON : Type :=
| JNull
| JBool (b : bool)
| JNum (x : Q)
| JStr (s : string)
| JArr (l : list JSON)
| JObj (fields : list (string * JSON)).

(** What [localStorage] holds under [STORAGE_KEY], as [JSON.parse] sees it:
    the empty text, a text that is not JSON, or the text of a value. *)
Inductive Raw : Type :=
| Empty
| Garbage
| Doc (v : JSON).

(** [None]: no item under the key ([getItem] returns [null]). *)
Definition Storage : Type := option Raw.

Record StoredData : Type := mkStored {
  names : list JSON;
  emojis : list JSON;
  order : list JSON;
  locked : bool;
  history : list JSON;
  savedAt : JSON
}.

(** Own properties of an object, first binding of a key. *)
Fixpoint assoc (k : string) (fields : list (string * JSON)) : option JSON :=
  match fields with
  | [] => None
  | (k', v) :: rest => if String.eqb k k' then Some v else assoc k rest
  end.

(** [parsed.k] for a value other than [null]; [None] is [undefined].  Only
    an object has the properties read here. *)
Definition prop (parsed : JSON) (k : string) : option JSON :=
  match parsed with
  | JObj fields => assoc k fields
  | _ => None
  end.

(** Truthiness of a property value. *)
Definition truthy (v : option JSON) : bool :=
  match v with
  | None => false
  | Some JNull => false
  | Some (JBool b) => b
  | Some (JNum x) => negb (Qeq_bool x 0)
  | Some (JStr s) => negb (String.eqb s "")
  | Some (JArr _) => true
  | Some (JObj _) => true
  end.

(** [Array.isArray(v) ? v : d] *)
Definition arrayOr (v : option JSON) (d : list JSON) : list JSON :=
  match v with
  | Some (JArr l) => l
  | _ => d
  end.

Definition defaultNames : list JSON := repeat (JStr "") TOTAL_MEMBERS.
Definition defaultEmojis : list JSON := map JStr DEFAULT_EMOJIS.

Definition MS_PER_DAY : Z := 1000 * 60 * 60 * 24.

(** [new Date(v)] first converts an object or an array to a primitive, and
    that conversion can throw.  A parsed object has [Object.prototype] behind
    it: its [valueOf] returns the object itself, so the conversion goes on to
    [toString], and an own property of that name, which JSON cannot make
    callable, leaves no method to call: a [TypeError].  An array is joined,
    which converts its elements other than [null] to text the same way.
    Text, numbers, booleans and [null] convert without a call. *)
Fixpoint toStringThrows (v : JSON) : bool :=
  match v with
  | JObj fields =>
      match assoc "toString" fields with Some _ => true | None => false end
  | JArr l => existsb toStringThrows l
  | _ => false
  end.

Section Load.

(** The built-in [Date]: [Date_getTime v] is [new Date(v).getTime()] where
    the construction gives a date with a time value, and [None] where it
    gives none: the date is invalid ([NaN]) or the construction threw, which
    [toStringThrows] tells apart.  [toISOString t] is the text of the time
    value [t]. *)
Variable Date_getTime : JSON -> option Z.
Variable toISOString : Z -> string.

Definition defaults (now : Z) : StoredData :=
  {| names := defaultNames;
     emojis := defaultEmojis;
     order := [];
     locked := false;
     history := [];
     savedAt := JStr (toISOString now) |}.

(** [(now - savedDate) / (1000*60*60*24)] as an exact quotient.  The double
    division rounds monotonically and [7] is a double, so the comparison with
    [EXPIRY_DAYS] below is the one of the code. *)
Definition diffDays (now t : Z) : Q :=
  (inject_Z (now - t) / inject_Z MS_PER_DAY)%Q.

(** [diffDays > EXPIRY_DAYS]; a comparison with [NaN] is false. *)
Definition expired (now : Z) (sv : JSON) : bool :=
  match Date_getTime sv with
  | Some t => negb (Qle_bool (diffDays now t) (inject_Z EXPIRY_DAYS))
  | None => false
  end.

(** [parsed.savedAt] is set and more than [EXPIRY_DAYS] old. *)
Definition stale (now : Z) (sv : option JSON) : bool :=
  match sv with
  | Some v => truthy sv && expired now v
  | None => false
  end.

(** [new Date(parsed.savedAt)] throws: the stamp is set and its conversion
    to a primitive fails. *)
Definition raises (sv : option JSON) : bool :=
  match sv with
  | Some v =>
      truthy sv
      && match Date_getTime v with
         | Some _ => false
         | None => toStringThrows v
         end
  | None => false
  end.

(** [parsed.savedAt || new Date().toISOString()] *)
Definition savedAtOr (now : Z) (sv : option JSON) : JSON :=
  match sv with
  | Some v => if truthy sv then v else JStr (toISOString now)
  | None => JStr (toISOString now)
  end.

(** The body of the [try]: [None] when it throws.  The storage is threaded,
    [removeItem] leaves it empty.  The calls of [new Date()] within one load
    are taken at the one instant [now]. *)
Definition tryLoad (now : Z) (st : Storage) : option StoredData * Storage :=
  match st with
  | None => (None, st)                        (* no data *)
  | Some Empty => (None, st)                  (* no data: [!raw] *)
  | Some Garbage => (None, st)                (* SyntaxError of JSON.parse *)
  | Some (Doc JNull) => (None, st)            (* TypeError of null.savedAt *)
  | Some (Doc parsed) =>
      if raises (prop parsed "savedAt")
      then (None, st)                         (* TypeError of new Date *)
      else if stale now (prop parsed "savedAt")
      then (None, None)                       (* removeItem; expired *)
      else
        (Some {| names := arrayOr (prop parsed "names") defaultNames;
                 emojis := arrayOr (prop parsed "emojis") defaultEmojis;
                 order := arrayOr (prop parsed "order") [];
                 locked := truthy (prop parsed "locked");
                 history := arrayOr (prop parsed "history") [];
                 savedAt := savedAtOr now (prop parsed "savedAt") |}, st)
  end.

(** [window] tells whether the code runs in a browser. *)
Definition loadStoredData (window : bool) (now : Z) (st : Storage)
  : StoredData * Storage :=
  if negb window then (defaults now, st)
  else
    match tryLoad now st with
    | (Some d, st') => (d, st')
    | (None, st') => (defaults now, st')
    end.

End Load.

(** The shapes the specification names for the fields. *)
Definition isText (v : JSON) : bool :=
  match v with JStr _ => true | _ => false end.

Definition isRecord (v : JSON) : bool :=
  match v with JObj _ => true | _ => false end.

Definition isSeqOf (shape : JSON -> bool) (v : option JSON) : bool :=
  match v with
  | Some (JArr l) => forallb shape l
  | _ => false
  end.

Definition isBoolean (v : option JSON) : bool :=
  match v with Some (JBool _) => true | _ => false end.

(** The validation in the words of the specification: a field is kept when it
    has its shape and replaced by its default when it has not. *)
Definition checkedSeq (shape : JSON -> bool) (v : option JSON) (d : list JSON)
  : list JSON :=
  if isSeqOf shape v then arrayOr v d else d.

Definition checkedBool (v : option JSON) : bool :=
  match v with
  | Some (JBool b) => b
  | _ => false
  end.

(** What the loader does with a sequence field: the stored value when it is
    an array, whatever its elements, and the default otherwise. *)
Definition keptIfArray (v : option JSON) (d out : list JSON) : Prop :=
  (forall l, v = Some (JArr l) -> out = l)
  /\ ((forall l, v <> Some (JArr l)) -> out = d).

(** A sample [Date] for blobs stamped with a number: [new Date(x)] has the
    integer part of [x] as its time value.  Other stamps are taken as
    invalid. *)
Definition numericDate (v : JSON) : option Z :=
  match v with
  | JNum x => Some (Z.quot (Qnum x) (Zpos (Qden x)))
  | _ => None
  end.

Definition sampleISO (t : Z) : string := "2026-01-31T10:00:00.000Z".

(** A well-shaped blob saved at the time [t]. *)
Definition blobAt (t : Z) : JSON :=
  JObj [("names", JArr [JStr "Ann"]); ("locked", JBool true);
        ("savedAt", JNum (inject_Z t))].

(** A fresh, well-shaped blob but for a stamp that [new Date] cannot
    convert. *)
Definition throwingBlob : JSON :=
  JObj [("names", JArr [JStr "Ann"]); ("locked", JBool true);
        ("savedAt", JObj [("toString", JNum 0)])].

(** A fresh blob whose fields are off their shapes. *)
Definition oddBlob : JSON :=
  JObj [("names", JArr [JNum 1]); ("locked", JStr "yes");
        ("history", JStr "none"); ("savedAt", JNum 1000)].

End Store.

(** ** The rotation draw: component state and handlers *)

Module MonthRecord.
Record t : Type := mk {
  month : string;
  pair : list string;
  date : string;
  (** [None] is [undefined], read from an [emojis] array that is too short. *)
  emojis : list (option string)
}.
End MonthRecord.

(** What the pending [setTimeout] callback of a spin has captured. *)
Record Timer : Type := mkTimer {
  t_remainingNames : list string;
  t_pickIndex : nat
}.

(** The React state of [ChamaWheel] that the handlers read and write
    ([rotation], [pointerBounce] and [mounted] only drive the rendering), and
    the timer of a spin in flight. *)
Record State : Type := mkState {
  names : list string;
  emojis : list string;
  order : list string;
  locked : bool;
  history : list MonthRecord.t;
  spinning : bool;
  currentPick : option string;
  tempPair : list string;
  timer : option Timer
}.

(** What a handler shows besides the state change. *)
Inductive Effect : Type :=
| Alert (msg : string)
| Confetti.

(** The state after mounting with the loaded values. *)
Definition mount (n e o : list string) (l : bool) (h : list MonthRecord.t)
  : State :=
  {| names := n; emojis := e; order := o; locked := l; history := h;
     spinning := false; currentPick := None; tempPair := []; timer := None |}.

(** The canonical empty snapshot: what [loadStoredData] gives by default. *)
Definition empty : State :=
  mount (repeat "" TOTAL_MEMBERS) DEFAULT_EMOJIS [] false [].

(** [names.filter(n => n.trim() !== "" && !order.includes(n))] *)
Definition eligible (order : list string) (n : string) : bool :=
  negb (String.eqb (JS.trim n) "") && negb (JS.includes order n).

Definition remainingNames (s : State) : list string :=
  filter (eligible (order s)) (names s).

(** *** The double product of a spin *)

(** The integer nearest to [num / den], for [den > 0]; a tie goes to the even
    integer. *)
Definition roundEven (num den : Z) : Z :=
  let f := (num / den)%Z in
  match (2 * (num mod den) ?= den)%Z with
  | Lt => f
  | Gt => (f + 1)%Z
  | Eq => if Z.even f then f else (f + 1)%Z
  end.

(** Rounding to 53 significant bits on the grid of the multiples of [1 / U]:
    the number nearest to [p / q] (for [p >= 0] and [q > 0]), counted in the
    unit [1 / U].  With [m] the integer part of [p * U / q], the spacing of
    the numbers around [p / q] is [2 ^ (log2 m - 52)] units, and one unit
    where this would be less (the subnormal range). *)
Definition nearest53 (U p q : Z) : Z :=
  let num := (p * U)%Z in
  let k := Z.max (Z.log2 (num / q) - 52) 0 in
  (roundEven num (q * 2 ^ k) * 2 ^ k)%Z.

(** Every double is a multiple of [2 ^ -1074]. *)
Definition UNITS : Z := (2 ^ 1074)%Z.

(** The double nearest to [x >= 0], ties to the even significand as IEEE 754
    rounds a product, in units of [2 ^ -1074].  ([x] is a product below the
    length of an array, far from the overflow threshold.) *)
Definition toDouble (x : Q) : Z :=
  nearest53 UNITS (Qnum x) (Zpos (Qden x)).

(** [Math.floor(Math.random() * slices)], [rnd] being the value of
    [Math.random()]: the integer part of the double product. *)
Definition pickIndex (rnd : Q) (slices : nat) : nat :=
  Z.to_nat (toDouble (rnd * inject_Z (Z.of_nat slices)) / UNITS).

(** The largest double below 1, and the relative error of one rounding. *)
Definition MAX_RANDOM : Q := 9007199254740991 # 9007199254740992.


(** [spinWheel] up to the start of the timer. *)
Definition spinWheel (rnd : Q) (s : State) : State :=
  if spinning s
     || (List.length (remainingNames s) =? 0)%nat
     || (2 <=? List.length (tempPair s))%nat
  then s
  else
    let slices := List.length (remainingNames s) in
    {| names := names s; emojis := emojis s; order := order s;
       locked := true;
       history := history s;
       spinning := true;
       currentPick := None;
       tempPair := tempPair s;
       timer := Some {| t_remainingNames := remainingNames s;
                        t_pickIndex := pickIndex rnd slices |} |}.

(** The callback of [spinWheel], three seconds later.  Its [winner] is read
    from the array captured at the start of the spin; an index outside it
    (never the case for a value of [Math.random()], see [pickIndex_lt]) is not
    modelled and leaves the state as it is. *)
Definition spinTimeout (s : State) : State :=
  match timer s with
  | None => s
  | Some t =>
      match nth_error (t_remainingNames t) (t_pickIndex t) with
      | Some winner =>
          {| names := names s; emojis := emojis s;
             order := order s ++ [winner];
             locked := locked s;
             history := history s;
             spinning := false;
             currentPick := Some winner;
             tempPair := tempPair s ++ [winner];
             timer := None |}
      | None => s
      end
  end.

(** The spec's [draw()]: a spin and its completion. *)
Definition draw (rnd : Q) (s : State) : State := spinTimeout (spinWheel rnd s).

Definition resetChama (s : State) : State :=
  {| names := repeat "" TOTAL_MEMBERS;
     emojis := DEFAULT_EMOJIS;
     order := [];
     locked := false;
     history := [];
     spinning := spinning s;
     currentPick := None;
     tempPair := [];
     timer := timer s |}.

(** The [onChange] of the input of slot [i]; the input is disabled when
    [locked]. *)
Definition editName (i : nat) (v : string) (s : State) : State :=
  if locked s then s
  else
    {| names := JS.setAt i v (names s); emojis := emojis s; order := order s;
       locked := locked s; history := history s; spinning := spinning s;
       currentPick := currentPick s; tempPair := tempPair s;
       timer := timer s |}.

(** [MONTHS[history.length % 12]] *)
Definition monthOf (h : list MonthRecord.t) : string :=
  nth (List.length h mod 12) MONTHS "".

Definition NEED_TWO : string := "Spin twice to select both winners!".

(** The state after an accepted [saveMonth]. *)
Definition saved (s : State) (o : list string) (r : MonthRecord.t) : State :=
  {| names := names s; emojis := emojis s;
     order := o;
     locked := true;
     history := history s ++ [r];
     spinning := spinning s;
     currentPick := currentPick s;
     tempPair := [];
     timer := timer s |}.

(** *** [saveMonth] of [src/src/app/page.tsx] *)

Module Page.

(** [emojis[i] || PARTY]: the fallback replaces [undefined] and the empty
    text. *)
Definition glyphAt (emojis : list string) (i : nat) : string :=
  match nth_error emojis i with
  | Some e => if String.eqb e "" then PARTY else e
  | None => PARTY
  end.

Definition saveMonth (now : string) (s : State) : State * list Effect :=
  if (List.length (tempPair s) <? 2)%nat then (s, [Alert NEED_TWO])
  else
    let month := monthOf (history s) in
    (saved s (order s)
       {| MonthRecord.month := month;
          MonthRecord.pair := tempPair s;
          MonthRecord.date := now;
          MonthRecord.emojis :=
            JS.mapi (fun i _ => Some (glyphAt (emojis s) i)) (tempPair s) |},
     [Confetti]).

End Page.

(** *** [saveMonth] of [src/unnamed/part_000] *)

Module Part000.

(** [n.trim().toLowerCase()] *)
Definition normalize (n : string) : string := JS.toLowerCase (JS.trim n).

(** [n === "dennis" || n === "denno"] *)
Definition isDennis (n : string) : bool :=
  String.eqb n "dennis" || String.eqb n "denno".

(** [names.map(normalize).findIndex(isDennis)] *)
Definition dennisIndex (names : list string) : option nat :=
  JS.findIndex isDennis (map normalize names).

(** The finalized pair and the draw order after the February rule.  The reads
    [names[dennisIndex]], [finalPair[1]] and [tempPair[0]] are inside their
    arrays: the index comes from [findIndex] over the roster, and the pair has
    two entries past the guard of [saveMonth]. *)
Definition february (names order tempPair : list string)
  : list string * list string :=
  match dennisIndex names with
  | Some i =>
      let dennisName := nth i names "" in
      if JS.includes tempPair dennisName
      then (dennisName
              :: filter (fun n => negb (String.eqb n dennisName)) tempPair,
            order)
      else
        let finalPair := [dennisName; nth 1 tempPair ""] in
        let withoutFirst :=
          filter (fun n => negb (String.eqb n (nth 0 tempPair ""))) order in
        (finalPair, (withoutFirst ++ finalPair)%list)
  | None => (tempPair, order)
  end.

(** [idx !== -1 ? emojis[idx] : PARTY] with [idx = names.indexOf(name)] *)
Definition glyphOf (names emojis : list string) (name : string)
  : option string :=
  match JS.indexOf names name with
  | Some idx => nth_error emojis idx
  | None => Some PARTY
  end.

Definition saveMonth (now : string) (s : State) : State * list Effect :=
  if (List.length (tempPair s) <? 2)%nat then (s, [Alert NEED_TWO])
  else
    let month := monthOf (history s) in
    let '(finalPair, order') :=
      if String.eqb month "February"
      then february (names s) (order s) (tempPair s)
      else (tempPair s, order s) in
    (saved s order'
       {| MonthRecord.month := month;
          MonthRecord.pair := finalPair;
          MonthRecord.date := now;
          MonthRecord.emojis := map (glyphOf (names s) (emojis s)) finalPair |},
     [Confetti]).

End Part000.

(** ** Runs of the component *)

Inductive Copy : Type :=
| page_tsx
| part_000.

Definition saveMonthOf (c : Copy) : string -> State -> State * list Effect :=
  match c with
  | page_tsx => Page.saveMonth
  | part_000 => Part000.saveMonth
  end.

(** What the user and the timer can do to the component. *)
Inductive Action : Type :=
| Edit (i : nat) (v : string)
| Spin (rnd : Q)
| Timeout
| Save (now : string)
| Reset.

Definition step (c : Copy) (a : Action) (s : State) : State :=
  match a with
  | Edit i v => editName i v s
  | Spin rnd => spinWheel rnd s
  | Timeout => spinTimeout s
  | Save now => fst (saveMonthOf c now s)
  | Reset => resetChama s
  end.

(** [Math.random()] is a double that is at least 0 and less than 1, hence at
    most the largest double below 1.  Nothing more is asked of it. *)
Definition unit_interval (rnd : Q) : Prop := (0 <= rnd /\ rnd <= MAX_RANDOM)%Q.

Definition validAction (a : Action) : Prop :=
  match a with
  | Spin rnd => unit_interval rnd
  | _ => True
  end.

Definition run (c : Copy) (l : list Action) (s : State) : State :=
  fold_left (fun s a => step c a s) l s.

Inductive Reachable (c : Copy) (s0 : State) : State -> Prop :=
| reach_start : Reachable c s0 s0
| reach_step a s :
    Reachable c s0 s -> validAction a -> Reachable c s0 (step c a s).

(** The invariant of the draw order and the counting identity of the
    specification. *)
Definition orderInvariant (s : State) : Prop :=
  (forall n, In n (order s) -> n <> "" /\ In n (names s)) /\ NoDup (order s).

Definition counting (s : State) : Prop :=
  List.length (order s)
  = (List.length (history s) * 2 + List.length (tempPair s))%nat.

(** Between a spin and its timeout the pair holds at most one name and
    [spinning] is set; otherwise it holds at most two. *)
Definition bufferInv (s : State) : Prop :=
  match timer s with
  | None => spinning s = false /\ (List.length (tempPair s) <= 2)%nat
  | Some _ => spinning s = true /\ (List.length (tempPair s) <= 1)%nat
  end.

(** The roster name the February rule looks for: the first one, at slot [i],
    whose trimmed and lower-cased form is one of the two literals. *)
Definition firstDennis (names : list string) (i : nat) (d : string) : Prop :=
  nth_error names i = Some d
  /\ Part000.isDennis (Part000.normalize d) = true
  /\ (forall j n, (j < i)%nat -> nth_error names j = Some n ->
        Part000.isDennis (Part000.normalize n) = false).

Definition noDennis (names : list string) : Prop :=
  forall n, In n names -> Part000.isDennis (Part000.normalize n) = false.

(** The operations of the specification.  A [draw()] is a spin together
    with its timeout, nothing happening in between. *)
Inductive Op : Type :=
| OpEdit (i : nat) (v : string)
| OpDraw (rnd : Q)
| OpFinalize (now : string)
| OpReset.

Definition expand (op : Op) : list Action :=
  match op with
  | OpEdit i v => [Edit i v]
  | OpDraw rnd => [Spin rnd; Timeout]
  | OpFinalize now => [Save now]
  | OpReset => [Reset]
  end.

Definition validOp (op : Op) : Prop :=
  match op with
  | OpDraw rnd => unit_interval rnd
  | _ => True
  end.

Definition perform (c : Copy) (ops : list Op) (s : State) : State :=
  run c (flat_map expand ops) s.

(** What holds between operations as long as the February rule stays out. *)
Definition engineInv (s : State) : Prop :=
  timer s = None
  /\ spinning s = false
  /\ NoDup (order s)
  /\ (forall n, In n (order s) -> JS.trim n <> "" /\ In n (names s))
  /\ (List.length (tempPair s) <= 2)%nat
  /\ counting s
  /\ (locked s = false -> order s = [])
  /\ List.length (names s) = TOTAL_MEMBERS.

(** The February rule cannot fire in [s] under copy [c]. *)
Definition ruleOut (c : Copy) (s : State) : Prop :=
  c = page_tsx \/ noDennis (names s).

(** The operations of the scenario of the specification: draws and saves. *)
Definition drawOrFinalize (op : Op) : Prop :=
  match op with
  | OpDraw _ | OpFinalize _ => True
  | _ => False
  end.

Definition validPair (r : Q * Q) : Prop :=
  unit_interval (fst r) /\ unit_interval (snd r).

(** A roster of ten distinct, non-blank names none of which the February rule
    looks for. *)
Definition plainRoster (roster : list string) : Prop :=
  List.length roster = TOTAL_MEMBERS
  /\ NoDup roster
  /\ (forall n, In n roster -> JS.trim n <> "")
  /\ noDennis roster.

(** The state between two months of the scenario. *)
Definition betweenMonths (roster : list string) (s : State) : Prop :=
  engineInv s
  /\ names s = roster
  /\ tempPair s = []
  /\ map MonthRecord.month (history s)
     = firstn (List.length (history s)) MONTHS.

(** The avatar of a winner as the specification words it: the avatar at the
    first roster slot that holds the name, the celebration glyph for a name
    that is not in the roster. *)
Definition glyphSpec (names emojis : list string) (w : string)
    (g : option string) : Prop :=
  (exists k,
      nth_error names k = Some w
      /\ (forall j, (j < k)%nat -> nth_error names j <> Some w)
      /\ g = nth_error emojis k)
  \/ (~ In w names /\ g = Some PARTY).

(** ** Sample rosters and runs, used to evaluate the handlers *)

Definition roster10 : list string :=
  ["Ann"; "Bob"; "Cate"; "Dan"; "Eve"; "Finn"; "Gil"; "Hana"; "Ivy"; "Jo"].

Definition rosterDenno : list string :=
  ["Ann"; "Bob"; "Cate"; "Dan"; "Denno"; ""; ""; ""; ""; ""].

(** Typing the names of [l] into the inputs, slot by slot. *)
Definition typeOps (l : list string) : list Op :=
  JS.mapi (fun i v => OpEdit i v) l.

(** One month with the random values [r1] and [r2]: two draws and a save. *)
Definition cycleOps (now : string) (r : Q * Q) : list Op :=
  [OpDraw (fst r); OpDraw (snd r); OpFinalize now].

Definition cyclesOf (now : string) (rs : list (Q * Q)) : list Op :=
  flat_map (cycleOps now) rs.

Definition stamp : string := "2026-01-31T10:00:00.000Z".

(** The ten names typed into the empty page. *)
Definition seated (c : Copy) : State := perform c (typeOps roster10) empty.

(** The first draw on the seated page, Ann winning. *)
Definition firstDrawn (c : Copy) : State :=
  perform c [OpDraw 0] (seated c).

(** Twelve months asked of the seated page, every random value being 0. *)
Definition twelveAsked (c : Copy) : State :=
  perform c (cyclesOf stamp (repeat (0%Q, 0%Q) 12)) (seated c).

(** With Denno in the roster: January drawn as Cate and Dan and saved, then
    Ann and Bob drawn for February. *)
Definition februaryDraws : list Op :=
  (typeOps rosterDenno
   ++ cycleOps stamp ((1 # 2)%Q, (1 # 2)%Q)
   ++ [OpDraw 0; OpDraw 0])%list.

Definition januaryDrawn (c : Copy) : State :=
  perform c (typeOps rosterDenno ++ [OpDraw (1 # 2); OpDraw (1 # 2)])%list
    empty.

Definition beforeFebruary (c : Copy) : State :=
  perform c februaryDraws empty.

Definition afterFebruary (c : Copy) : State :=
  fst (saveMonthOf c stamp (beforeFebruary c)).

(** A reset while the wheel spins, the timeout coming after it. *)
Definition resetInFlight (c : Copy) : State :=
  run c [Spin 0; Reset; Timeout] (seated c).

(** ** The persist effect *)

(** The effect that follows every change of [names], [emojis], [order],
    [locked] or [history]: [localStorage.setItem(STORAGE_KEY,
    JSON.stringify(payload))].  The stored text is represented, as in
    [Store.Raw], by the value [JSON.parse] reads back from it. *)
Module Persist.

(** An [undefined] entry of an array is written as [null]. *)
Definition glyphJSON (g : option string) : Store.JSON :=
  match g with
  | Some e => Store.JStr e
  | None => Store.JNull
  end.

Definition recordJSON (r : MonthRecord.t) : Store.JSON :=
  Store.JObj
    [("month", Store.JStr (MonthRecord.month r));
     ("pair", Store.JArr (map Store.JStr (MonthRecord.pair r)));
     ("date", Store.JStr (MonthRecord.date r));
     ("emojis", Store.JArr (map glyphJSON (MonthRecord.emojis r)))].

(** [{ names, emojis, order, locked, history, savedAt }] *)
Definition payload (savedAt : string) (s : State) : Store.JSON :=
  Store.JObj
    [("names", Store.JArr (map Store.JStr (names s)));
     ("emojis", Store.JArr (map Store.JStr (emojis s)));
     ("order", Store.JArr (map Store.JStr (order s)));
     ("locked", Store.JBool (locked s));
     ("history", Store.JArr (map recordJSON (history s)));
     ("savedAt", Store.JStr savedAt)].

Definition persist (toISOString : Z -> string) (now : Z) (s : State)
  : Store.Storage :=
  Some (Store.Doc (payload (toISOString now) s)).

(** The snapshot whose fields are those of [s], as JSON values. *)
Definition snapshot (savedAt : string) (s : State) : Store.StoredData :=
  {| Store.names := map Store.JStr (names s);
     Store.emojis := map Store.JStr (emojis s);
     Store.order := map Store.JStr (order s);
     Store.locked := locked s;
     Store.history := map recordJSON (history s);
     Store.savedAt := Store.JStr savedAt |}.

(** A sample [Date] that reads the text [stampText] as its instant. *)
Definition stampText : string := "2026-01-31T10:00:00.000Z".
Definition stampTime : Z := 1769853600000.

Definition stampDate (v : Store.JSON) : option Z :=
  match v with
  | Store.JStr t => if String.eqb t stampText then Some stampTime else None
  | _ => None
  end.

Definition stampISO (t : Z) : string := stampText.

(** A blob that carries no [savedAt]. *)
Definition undated : Store.JSON :=
  Store.JObj [("names", Store.JArr [Store.JStr "Ann"]);
              ("locked", Store.JBool true)].

End Persist.

(** ** Sharing the history *)

Module Share.

Definition newline : string := String (ascii_of_nat 10) EmptyString.

(** [l.join(sep)] *)
Fixpoint join (sep : string) (l : list string) : string :=
  match l with
  | [] => ""
  | x :: l' =>
      match l' with
      | [] => x
      | _ :: _ => x ++ sep ++ join sep l'
      end
  end.

(** The characters [encodeURIComponent] leaves as they are: letters, digits
    and [- _ . ! ~ * ' ( )]. *)
Definition isUnreserved (a : ascii) : bool :=
  let x := JS.code a in
  ((65 <=? x) && (x <=? 90) || (97 <=? x) && (x <=? 122)
   || (48 <=? x) && (x <=? 57)
   || (x =? 45) || (x =? 95) || (x =? 46) || (x =? 33) || (x =? 126)
   || (x =? 42) || (x =? 39) || (x =? 40) || (x =? 41))%N.

(** The upper-case hexadecimal digit of [n < 16]. *)
Definition hexDigit (n : N) : ascii :=
  ascii_of_N (if (n <? 10)%N then 48 + n else 55 + n).

Definition percent : ascii := ascii_of_N 37.

(** [encodeURIComponent] on the UTF-8 bytes of the text: every byte outside
    the unreserved set becomes a percent sign and its two hexadecimal
    digits. *)
Fixpoint encodeURIComponent (s : string) : string :=
  match s with
  | EmptyString => EmptyString
  | String a s' =>
      if isUnreserved a then String a (encodeURIComponent s')
      else
        String percent
          (String (hexDigit (JS.code a / 16))
             (String (hexDigit (JS.code a mod 16)) (encodeURIComponent s')))
  end.

Definition HEADER : string := "Muthonjia Cousins Chama winners:".

(** One line of the summary: the month, a colon and the pair joined by an
    ampersand. *)
Definition line (h : MonthRecord.t) : string :=
  MonthRecord.month h ++ ": " ++ join " & " (MonthRecord.pair h).

Definition text (history : list MonthRecord.t) : string :=
  HEADER ++ newline ++ join newline (map line history).

(** [shareWhatsApp]: the address it opens, [None] when it returns early. *)
Definition shareWhatsApp (s : State) : option string :=
  if (List.length (history s) =? 0)%nat then None
  else Some ("https://wa.me/?text=" ++ encodeURIComponent (text (history s))).

(** The characters of a text. *)
Definition chars (s : string) : list ascii := list_ascii_of_string s.

End Share.

(** ** Invariants of the reachable states *)

(** The winner the pending timer will announce. *)
Definition winnerOf (t : Timer) : option string :=
  nth_error (t_remainingNames t) (t_pickIndex t).

(** The pending winners are the last names of the draw order, they are
    distinct, and the winner of a spin in flight is not in the draw order. *)
Definition pendingInv (s : State) : Prop :=
  (exists pre, order s = (pre ++ tempPair s)%list)
  /\ NoDup (tempPair s)
  /\ (forall t w, timer s = Some t -> winnerOf t = Some w ->
        ~ In w (order s)).

(** The roster keeps its ten slots and the avatars are the default ones. *)
Definition rosterInv (s : State) : Prop :=
  List.length (names s) = TOTAL_MEMBERS /\ emojis s = DEFAULT_EMOJIS.

(** The record at position [i] of the history. *)
Definition recordOk (i : nat) (r : MonthRecord.t) : Prop :=
  MonthRecord.month r = nth (i mod 12) MONTHS ""
  /\ List.length (MonthRecord.pair r) = 2%nat
  /\ NoDup (MonthRecord.pair r)
  /\ List.length (MonthRecord.emojis r) = 2%nat
  /\ Forall (fun g => g <> None) (MonthRecord.emojis r).

Definition historyOk (h : list MonthRecord.t) : Prop :=
  forall i r, nth_error h i = Some r -> recordOk i r.

(** The draw order as a ledger: the recorded pairs, then the pending
    winners. *)
Definition ledger (s : State) : Prop :=
  order s
  = (List.concat (map MonthRecord.pair (history s)) ++ tempPair s)%list.

(** The timer of a spin in flight holds a winner, and a non-blank one. *)
Definition timerInv (s : State) : Prop :=
  forall t, timer s = Some t ->
    exists w, winnerOf t = Some w /\ JS.trim w <> "".


(** The seated page while the wheel spins for the first time. *)
Definition midSpin (c : Copy) : State := run c [Spin 0] (seated c).

(** * Properties *)

(** ** Small checks of the string functions *)

Example trim_spaces : JS.trim "  Denno " = "Denno".
Proof. reflexivity. Qed.

Example trim_blank : JS.trim "   " = "".
Proof. reflexivity. Qed.

Example trim_wide : JS.trim " Denno ﻿" = "Denno".
Proof. reflexivity. Qed.

Example lower_denno : JS.toLowerCase "DeNNo" = "denno".
Proof. reflexivity. Qed.

Example dennis_found :
  Part000.dennisIndex ["Ann"; " DENNIS "; "denno"] = Some 1%nat.
Proof. reflexivity. Qed.

(** ** The random index *)

Section Rounding.

Local Open Scope Z_scope.

Lemma roundEven_error (num den : Z) :
  0 < den ->
  - den <= 2 * (roundEven num den * den - num) <= den.
Proof.
  intros Hd. unfold roundEven.
  pose proof (Z.div_mod num den ltac:(lia)) as E.
  pose proof (Z.mod_pos_bound num den Hd) as B.
  set (f := num / den) in *. set (r := num mod den) in *.
  destruct (Z.compare_spec (2 * r) den) as [H|H|H].
  - destruct (Z.even f); nia.
  - nia.
  - nia.
Qed.

Lemma roundEven_nonneg (num den : Z) :
  0 < den -> 0 <= num -> 0 <= roundEven num den.
Proof.
  intros Hd Hn. unfold roundEven.
  assert (0 <= num / den) by (apply Z.div_pos; lia).
  destruct (2 * (num mod den) ?= den); [destruct (Z.even _)| |]; lia.
Qed.

Section Scaled.

Variables U p q : Z.
Hypothesis HU : 2 ^ 53 <= U.
Hypothesis Hp : 0 <= p.
Hypothesis Hq : 0 < q.

Lemma scaled_nonneg : 0 <= nearest53 U p q.
Proof.
  unfold nearest53. apply Z.mul_nonneg_nonneg.
  - apply roundEven_nonneg; [|nia].
    apply Z.mul_pos_pos; [exact Hq | apply Z.pow_pos_nonneg; lia].
  - apply Z.pow_nonneg. lia.
Qed.

Lemma scaled_error :
  let k := Z.max (Z.log2 (p * U / q) - 52) 0 in
  - (q * 2 ^ k) <= 2 * (nearest53 U p q * q - p * U) <= q * 2 ^ k.
Proof.
  intros k. unfold nearest53. fold k.
  assert (HP : 0 < 2 ^ k) by (apply Z.pow_pos_nonneg; lia).
  pose proof (roundEven_error (p * U) (q * 2 ^ k) ltac:(nia)) as E.
  nia.
Qed.

Lemma scaled_normal :
  q <= 2 * p ->
  - (p * U) <= 2 ^ 53 * (nearest53 U p q * q - p * U) <= p * U.
Proof.
  intros Hhalf. set (T := nearest53 U p q).
  set (m := p * U / q).
  assert (Hm : 2 ^ 52 <= m).
  { apply Z.div_le_lower_bound; [exact Hq|].
    change (2 ^ 53) with (2 * 2 ^ 52) in HU. nia. }
  pose proof scaled_error as E. cbv zeta in E. fold m T in E.
  assert (Hlog : 52 <= Z.log2 m).
  { apply Z.log2_le_pow2; lia. }
  rewrite Z.max_l in E by lia.
  assert (Hpow : 2 ^ (Z.log2 m - 52) * 2 ^ 52 <= m).
  { rewrite <- Z.pow_add_r by lia.
    replace (Z.log2 m - 52 + 52) with (Z.log2 m) by lia.
    apply Z.log2_spec. lia. }
  assert (Hmq : q * m <= p * U) by (apply Z.mul_div_le; exact Hq).
  set (P := 2 ^ (Z.log2 m - 52)) in *.
  assert (HP : 0 < P) by (apply Z.pow_pos_nonneg; lia).
  change (2 ^ 53) with (2 * 2 ^ 52).
  set (C := 2 ^ 52) in *. assert (HC : 0 < C) by (unfold C; lia).
  assert (q * (P * C) <= p * U) by nia.
  nia.
Qed.

Lemma scaled_small : 2 * p < q -> nearest53 U p q < U.
Proof.
  intros Hhalf. set (T := nearest53 U p q).
  set (m := p * U / q).
  pose proof scaled_error as E. cbv zeta in E. fold m T in E.
  assert (HU1 : 1 <= U) by lia.
  assert (Hm0 : 0 <= m) by (apply Z.div_pos; nia).
  destruct (Z.le_gt_cases (2 ^ 52) m) as [Hm|Hm].
  - assert (Hlog : 52 <= Z.log2 m) by (apply Z.log2_le_pow2; lia).
    rewrite Z.max_l in E by lia.
    assert (Hpow : 2 ^ (Z.log2 m - 52) * 2 ^ 52 <= m).
    { rewrite <- Z.pow_add_r by lia.
      replace (Z.log2 m - 52 + 52) with (Z.log2 m) by lia.
      apply Z.log2_spec. lia. }
    assert (Hmq : q * m <= p * U) by (apply Z.mul_div_le; exact Hq).
    set (P := 2 ^ (Z.log2 m - 52)) in *.
    assert (HP : 0 < P) by (apply Z.pow_pos_nonneg; lia).
    set (C := 2 ^ 52) in *. assert (HC : 1 <= C) by (unfold C; lia).
    assert (q * (P * C) <= p * U) by nia.
    assert (q * P <= p * U) by nia.
    assert (2 * (T * q) <= 3 * (p * U)) by nia.
    assert (T * q < U * q) by nia.
    nia.
  - assert (Hlog : Z.log2 m - 52 <= 0).
    { destruct (Z.eq_dec m 0) as [->|Hne]; [cbn; lia|].
      assert (Z.log2 m < 52) by (apply Z.log2_lt_pow2; lia). lia. }
    rewrite Z.max_r in E by lia. change (2 ^ 0) with 1 in E.
    assert (T * q < U * q) by nia.
    nia.
Qed.

End Scaled.

Lemma unit_interval_Z (rnd : Q) :
  unit_interval rnd <->
  0 <= Qnum rnd /\ Qnum rnd * 2 ^ 53 <= (2 ^ 53 - 1) * Zpos (Qden rnd).
Proof.
  unfold unit_interval, MAX_RANDOM, Qle. cbn [Qnum Qden].
  change (Z.pos 9007199254740992) with (2 ^ 53).
  change 9007199254740991 with (2 ^ 53 - 1). lia.
Qed.

Lemma UNITS_large : 2 ^ 53 <= UNITS.
Proof. unfold UNITS. apply Z.pow_le_mono_r; lia. Qed.

Lemma product_parts (rnd : Q) (n : nat) :
  toDouble (rnd * inject_Z (Z.of_nat n))
  = nearest53 UNITS (Qnum rnd * Z.of_nat n) (Zpos (Qden rnd)).
Proof.
  unfold toDouble. cbn [Qmult Qnum Qden inject_Z].
  now rewrite Pos.mul_1_r.
Qed.


Lemma pickIndex_lt (rnd : Q) (n : nat) :
  unit_interval rnd -> (0 < n)%nat -> (pickIndex rnd n < n)%nat.
Proof.
  intros Hr Hn. apply unit_interval_Z in Hr. destruct Hr as [Ha Hmax].
  pose proof UNITS_large as HU. assert (HU0 : 0 < UNITS) by lia.
  assert (HT : toDouble (rnd * inject_Z (Z.of_nat n)) < Z.of_nat n * UNITS).
  { rewrite product_parts.
    set (a := Qnum rnd) in *. set (b := Zpos (Qden rnd)) in *.
    assert (Hb : 0 < b) by (unfold b; lia).
    set (N := Z.of_nat n). assert (HN : 1 <= N) by (unfold N; lia).
    assert (Hp : 0 <= a * N) by nia.
    set (T := nearest53 UNITS (a * N) b).
    destruct (Z.lt_ge_cases (2 * (a * N)) b) as [Hs|Hl].
    - pose proof (scaled_small UNITS (a * N) b HU Hp Hb Hs). fold T in H. nia.
    - pose proof (scaled_normal UNITS (a * N) b HU Hp Hb ltac:(lia)) as E.
      fold T in E. set (M := 2 ^ 53) in *. assert (HM : 1 < M) by (unfold M; lia).
      set (V := UNITS) in *.
      assert (H1 : M * (T * b) <= (M + 1) * (a * N * V)) by nia.
      assert (H2 : M * (M * (T * b)) <= (M + 1) * (N * V) * (a * M)) by nia.
      assert (H3 : (M + 1) * (N * V) * (a * M) <= (M + 1) * (N * V) * ((M - 1) * b)).
      { apply Z.mul_le_mono_nonneg_l; [nia | exact Hmax]. }
      assert (H4 : (M * M) * (T * b) < (M * M) * (N * V * b)) by nia.
      assert (H5 : T * b < N * V * b) by (apply Z.mul_lt_mono_pos_l with (p := M * M); nia).
      nia. }
  unfold pickIndex. apply Nat2Z.inj_lt. rewrite Z2Nat.id.
  - apply Z.div_lt_upper_bound; [lia|]. rewrite Z.mul_comm. exact HT.
  - apply Z.div_pos; [|lia]. rewrite product_parts. apply scaled_nonneg; lia.
Qed.





Lemma unit_interval_check (rnd : Q) :
  Qle_bool 0 rnd && Qle_bool rnd MAX_RANDOM = true -> unit_interval rnd.
Proof.
  intros H. apply andb_true_iff in H. destruct H as [H1 H2].
  split; now apply Qle_bool_iff.
Qed.

End Rounding.

(** ** Array helpers *)

Lemma includes_In (l : list string) (x : string) :
  JS.includes l x = true <-> In x l.
Proof.
  unfold JS.includes. rewrite existsb_exists. split.
  - intros [y [Hy E]]. apply String.eqb_eq in E. now subst.
  - intros H. exists x. split; [exact H | apply String.eqb_refl].
Qed.

Lemma includes_not_In (l : list string) (x : string) :
  JS.includes l x = false <-> ~ In x l.
Proof.
  rewrite <- includes_In. destruct (JS.includes l x); split; congruence.
Qed.

Lemma eligible_spec (o : list string) (n : string) :
  eligible o n = true <-> JS.trim n <> "" /\ ~ In n o.
Proof.
  unfold eligible. rewrite andb_true_iff, !negb_true_iff.
  rewrite String.eqb_neq, includes_not_In. reflexivity.
Qed.

Lemma remainingNames_spec (s : State) (n : string) :
  In n (remainingNames s)
  <-> In n (names s) /\ JS.trim n <> "" /\ ~ In n (order s).
Proof.
  unfold remainingNames. rewrite filter_In, eligible_spec. reflexivity.
Qed.

(** ** The draw *)

Lemma spinWheel_accepted (rnd : Q) (s : State) :
  spinning s = false -> remainingNames s <> [] ->
  (List.length (tempPair s) < 2)%nat ->
  spinWheel rnd s =
    {| names := names s; emojis := emojis s; order := order s;
       locked := true; history := history s; spinning := true;
       currentPick := None; tempPair := tempPair s;
       timer := Some {| t_remainingNames := remainingNames s;
                        t_pickIndex :=
                          pickIndex rnd (List.length (remainingNames s)) |} |}.
Proof.
  intros Hs Hr Ht. unfold spinWheel. rewrite Hs.
  destruct (remainingNames s) as [|x r] eqn:E; [congruence|].
  cbn [List.length Nat.eqb orb].
  destruct (Nat.leb_spec 2 (List.length (tempPair s))); [lia | reflexivity].
Qed.



Lemma zero_in_unit : unit_interval 0.
Proof. apply unit_interval_check. vm_compute. reflexivity. Qed.

Lemma half_in_unit : unit_interval (1 # 2).
Proof. apply unit_interval_check. vm_compute. reflexivity. Qed.

Example seated_roster : forall c, names (seated c) = roster10.
Proof. intros []; vm_compute; reflexivity. Qed.

Example beforeFebruary_state :
  order (beforeFebruary part_000) = ["Cate"; "Dan"; "Ann"; "Bob"]
  /\ tempPair (beforeFebruary part_000) = ["Ann"; "Bob"]
  /\ List.length (history (beforeFebruary part_000)) = 1%nat.
Proof. vm_compute. auto. Qed.


(** ** The pending pair never exceeds two *)

Lemma saveMonthOf_rejects (c : Copy) (now : string) (s : State) :
  (List.length (tempPair s) < 2)%nat ->
  saveMonthOf c now s = (s, [Alert NEED_TWO]).
Proof.
  intros H. destruct c; cbn [saveMonthOf];
    unfold Page.saveMonth, Part000.saveMonth;
    destruct (Nat.ltb_spec (List.length (tempPair s)) 2); (reflexivity || lia).
Qed.

Lemma saveMonthOf_frame (c : Copy) (now : string) (s : State) :
  let s' := fst (saveMonthOf c now s) in
  spinning s' = spinning s /\ timer s' = timer s
  /\ names s' = names s /\ emojis s' = emojis s
  /\ (tempPair s' = tempPair s \/ tempPair s' = []).
Proof.
  destruct c; cbn [saveMonthOf];
    unfold Page.saveMonth, Part000.saveMonth;
    destruct (List.length (tempPair s) <? 2)%nat; cbn; auto 10.
  destruct (if String.eqb _ _ then _ else _); cbn; auto 10.
Qed.

Lemma step_bufferInv (c : Copy) (a : Action) (s : State) :
  bufferInv s -> bufferInv (step c a s).
Proof.
  unfold bufferInv. intros H. destruct a as [i v|rnd| |now|]; cbn [step].
  - unfold editName. destruct (locked s); exact H.
  - unfold spinWheel. destruct (timer s) eqn:Et; destruct H as [Hs Hl].
    + rewrite Hs. cbn. rewrite Et. auto.
    + rewrite Hs. cbn [orb].
      destruct (List.length (remainingNames s) =? 0)%nat; cbn [orb].
      * rewrite Et. auto.
      * destruct (Nat.leb_spec 2 (List.length (tempPair s))).
        -- rewrite Et. auto.
        -- cbn. split; [reflexivity | lia].
  - unfold spinTimeout. destruct (timer s) as [t|] eqn:Et; [|rewrite Et; exact H].
    destruct (nth_error _ _); [|rewrite Et; exact H].
    cbn. rewrite length_app. cbn. destruct H. split; [reflexivity | lia].
  - destruct (Nat.ltb_spec (List.length (tempPair s)) 2) as [Hlt|Hge].
    + rewrite (saveMonthOf_rejects c now s Hlt). exact H.
    + destruct (saveMonthOf_frame c now s) as (Hs & Ht & _ & _ & Hp).
      rewrite Hs, Ht. destruct (timer s); destruct H as [H1 H2].
      * lia.
      * split; [exact H1|]. destruct Hp as [-> | ->]; [exact H2 | cbn; lia].
  - cbn. destruct (timer s); destruct H as [H1 _]; split; auto.
Qed.

Lemma reachable_bufferInv (c : Copy) (s0 s : State) :
  bufferInv s0 -> Reachable c s0 s -> bufferInv s.
Proof.
  intros H0 R. induction R as [|a s R IH V]; [exact H0|].
  apply step_bufferInv. exact IH.
Qed.

Lemma mount_bufferInv n e o l h : bufferInv (mount n e o l h).
Proof. cbn. split; [reflexivity | lia]. Qed.

(** C4: in every state reached from a mounted page (whatever was loaded), in
    either copy, a [saveMonth] with a pending pair of a size other than two
    changes nothing of the state and only raises the alert that asks for two
    winners.  The guard of the code tests [length < 2]; a pair of more than
    two names is never reached. *)
Theorem saveMonth_rejects_unless_two
    (c : Copy) (n e o : list string) (l : bool) (h : list MonthRecord.t)
    (now : string) (s : State) :
  Reachable c (mount n e o l h) s ->
  List.length (tempPair s) <> 2%nat ->
  saveMonthOf c now s = (s, [Alert NEED_TWO]).
Proof.
  intros R Hne. apply saveMonthOf_rejects.
  pose proof (reachable_bufferInv c _ s (mount_bufferInv n e o l h) R) as Hb.
  unfold bufferInv in Hb. destruct (timer s); lia.
Qed.

Lemma run_reachable (c : Copy) (l : list Action) (s0 : State) :
  Forall validAction l -> Reachable c s0 (run c l s0).
Proof.
  revert s0. induction l as [|a l IH] using rev_ind; intros s0 Hv.
  - constructor.
  - unfold run. rewrite fold_left_app. cbn.
    apply Forall_app in Hv. destruct Hv as [Hl Ha].
    apply reach_step; [apply IH; exact Hl | now inversion Ha].
Qed.

Lemma perform_reachable (c : Copy) (ops : list Op) (s0 : State) :
  Forall validOp ops -> Reachable c s0 (perform c ops s0).
Proof.
  intros Hv. apply run_reachable.
  induction Hv as [|op ops Hop _ IH]; cbn; [constructor|].
  apply Forall_app. split; [|exact IH].
  destruct op; cbn; repeat (apply Forall_cons || apply Forall_nil);
    (exact I || exact Hop).
Qed.

Lemma reachable_trans (c : Copy) (s0 s1 s2 : State) :
  Reachable c s0 s1 -> Reachable c s1 s2 -> Reachable c s0 s2.
Proof.
  intros R1 R2. induction R2; [exact R1 | now apply reach_step].
Qed.

Lemma typeOps_valid (l : list string) : Forall validOp (typeOps l).
Proof.
  unfold typeOps, JS.mapi. generalize 0%nat.
  induction l as [|x l IH]; intros n; cbn; constructor; [exact I | apply IH].
Qed.

Lemma seated_reachable (c : Copy) : Reachable c empty (seated c).
Proof. apply perform_reachable, typeOps_valid. Qed.

Lemma saveMonth_rejects_unless_two_witness :
  saveMonthOf part_000 stamp (firstDrawn part_000)
  = (firstDrawn part_000, [Alert NEED_TWO]).
Proof.
  apply (saveMonth_rejects_unless_two part_000
           (repeat "" TOTAL_MEMBERS) DEFAULT_EMOJIS [] false []).
  - apply (reachable_trans _ _ (seated part_000)); [apply seated_reachable|].
    apply perform_reachable. apply Forall_cons; [apply zero_in_unit|].
    apply Forall_nil.
  - vm_compute. discriminate.
Defined.

(** ** The February rule of [part_000] *)

Lemma findIndex_Some {A B : Type} (p : B -> bool) (f : A -> B) (l : list A) (i : nat) :
  JS.findIndex p (map f l) = Some i
  <-> exists d, nth_error l i = Some d /\ p (f d) = true
        /\ (forall j n, (j < i)%nat -> nth_error l j = Some n -> p (f n) = false).
Proof.
  revert i. induction l as [|x l IH]; intros i; cbn.
  - split; [discriminate|]. intros (d & H & _). destruct i; discriminate.
  - destruct (p (f x)) eqn:Ex.
    + split.
      * intros [= <-]. exists x. repeat split; auto. intros j n Hj. lia.
      * intros (d & Hn & Hp & Hfirst). destruct i; [reflexivity|].
        specialize (Hfirst 0%nat x (Nat.lt_0_succ _) eq_refl). congruence.
    + destruct (JS.findIndex p (map f l)) as [k|] eqn:Ek; cbn.
      * split.
        -- intros [= <-]. destruct (proj1 (IH k) eq_refl) as (d & Hn & Hp & Hfirst).
           exists d. repeat split; auto.
           intros [|j] n Hj Hjn; cbn in Hjn; [congruence|].
           apply (Hfirst j); [lia | exact Hjn].
        -- intros (d & Hn & Hp & Hfirst). destruct i as [|i]; cbn in Hn.
           ++ congruence.
           ++ f_equal. assert (E : Some k = Some i); [|congruence].
              apply IH. exists d. repeat split; auto.
              intros j n Hj Hjn. apply (Hfirst (S j)); [lia | exact Hjn].
      * split; [discriminate|].
        intros (d & Hn & Hp & Hfirst). destruct i as [|i]; cbn in Hn.
        -- congruence.
        -- assert (E : None = Some i); [|discriminate].
           apply IH. exists d. repeat split; auto.
           intros j n Hj Hjn. apply (Hfirst (S j)); [lia | exact Hjn].
Qed.

Lemma findIndex_None {A B : Type} (p : B -> bool) (f : A -> B) (l : list A) :
  JS.findIndex p (map f l) = None <-> forall n, In n l -> p (f n) = false.
Proof.
  induction l as [|x l IH]; cbn.
  - split; [contradiction | reflexivity].
  - destruct (p (f x)) eqn:Ex.
    + split; [discriminate|]. intros H. specialize (H x (or_introl eq_refl)). congruence.
    + destruct (JS.findIndex p (map f l)); cbn.
      * split; [discriminate|]. intros H.
        assert (E : Some n = None); [|discriminate].
        apply IH. intros m Hm. apply H. now right.
      * split; [|reflexivity]. intros _ n [<-|Hn]; [exact Ex|].
        now apply (proj1 IH).
Qed.

Lemma dennisIndex_first (names : list string) (i : nat) (d : string) :
  firstDennis names i d ->
  Part000.dennisIndex names = Some i /\ nth i names "" = d.
Proof.
  intros (Hn & Hp & Hfirst). split.
  - apply findIndex_Some. exists d. auto.
  - apply nth_error_nth. exact Hn.
Qed.

Lemma dennisIndex_none (names : list string) :
  noDennis names <-> Part000.dennisIndex names = None.
Proof. symmetry. apply findIndex_None. Qed.

Lemma filter_neq_remove (a : string) (l : list string) :
  filter (fun n => negb (String.eqb n a)) l = remove string_dec a l.
Proof.
  induction l as [|x l IH]; cbn; [reflexivity|].
  destruct (string_dec a x) as [<-|Hne].
  - rewrite String.eqb_refl. exact IH.
  - destruct (String.eqb_spec x a); [congruence|]. cbn. now rewrite IH.
Qed.

Lemma monthOf_february (h : list MonthRecord.t) :
  (List.length h mod 12 = 1)%nat -> monthOf h = "February".
Proof. unfold monthOf. intros ->. reflexivity. Qed.

(** C1: a [saveMonth] of [part_000] that runs with a pending pair [a, b] and
    a history length congruent to 1 modulo 12 appends one record labelled
    February.  With [d] the roster name found by the search (the first whose
    trimmed, lower-cased form is dennis or denno): if [d] is one of the two
    pending winners the pair of the record lists [d] first and the draw order
    is unchanged; if it is not, the pair is [d, b] and the draw order loses
    [a] and gains [d] and [b] at its end.  With no such name in the roster the
    pair is the pending pair and the draw order is unchanged. *)
Theorem february_override (now : string) (s : State) (a b : string) :
  tempPair s = [a; b] ->
  (List.length (history s) mod 12 = 1)%nat ->
  let s' := fst (Part000.saveMonth now s) in
  exists r,
    history s' = (history s ++ [r])%list
    /\ MonthRecord.month r = "February"
    /\ (forall i d, firstDennis (names s) i d ->
          (In d [a; b] ->
             hd_error (MonthRecord.pair r) = Some d
             /\ (a <> b ->
                  MonthRecord.pair r = [d; if String.eqb d a then b else a])
             /\ order s' = order s)
          /\ (~ In d [a; b] ->
               MonthRecord.pair r = [d; b]
               /\ order s' = (remove string_dec a (order s) ++ [d; b])%list))
    /\ (noDennis (names s) ->
          MonthRecord.pair r = [a; b] /\ order s' = order s).
Proof.
  intros Hp Hm. unfold Part000.saveMonth. rewrite Hp. cbn [List.length Nat.ltb Nat.leb].
  rewrite (monthOf_february _ Hm). cbn [String.eqb Ascii.eqb Bool.eqb].
  unfold Part000.february.
  destruct (Part000.dennisIndex (names s)) as [k|] eqn:Ek.
  - destruct (JS.includes [a; b] (nth k (names s) "")) eqn:Einc.
    + eexists. cbn. split; [reflexivity|]. split; [reflexivity|]. split.
      * intros i d Hd. destruct (dennisIndex_first _ _ _ Hd) as [Hi Hnth].
        assert (k = i) by congruence. subst k. rewrite Hnth in *. split.
        -- intros _. split; [reflexivity|]. split; [|reflexivity].
           intros Hab. apply includes_In in Einc.
           destruct Einc as [<-|[<-|[]]].
           ++ rewrite !String.eqb_refl. cbn.
              destruct (String.eqb_spec b a); [congruence | reflexivity].
           ++ rewrite String.eqb_refl. cbn.
              destruct (String.eqb_spec a b); [congruence|].
              destruct (String.eqb_spec b a); [congruence | reflexivity].
        -- intros Hnot. apply includes_In in Einc. contradiction.
      * intros Hno. apply dennisIndex_none in Hno. congruence.
    + eexists. cbn. split; [reflexivity|]. split; [reflexivity|]. split.
      * intros i d Hd. destruct (dennisIndex_first _ _ _ Hd) as [Hi Hnth].
        assert (k = i) by congruence. subst k. rewrite Hnth in *. split.
        -- intros Hin. pose proof (proj2 (includes_In [a; b] d) Hin). congruence.
        -- intros _. split; [reflexivity|]. now rewrite filter_neq_remove.
      * intros Hno. apply dennisIndex_none in Hno. congruence.
  - eexists. cbn. split; [reflexivity|]. split; [reflexivity|]. split.
    + intros i d Hd. destruct (dennisIndex_first _ _ _ Hd) as [Hi _]. congruence.
    + intros _. split; reflexivity.
Qed.

Lemma february_override_witness :
  exists r,
    history (afterFebruary part_000)
    = (history (beforeFebruary part_000) ++ [r])%list
    /\ MonthRecord.month r = "February"
    /\ MonthRecord.pair r = ["Denno"; "Bob"]
    /\ order (afterFebruary part_000) = ["Cate"; "Dan"; "Bob"; "Denno"; "Bob"].
Proof.
  assert (Hp : tempPair (beforeFebruary part_000) = ["Ann"; "Bob"])
    by (vm_compute; reflexivity).
  assert (Hm : (List.length (history (beforeFebruary part_000)) mod 12 = 1)%nat)
    by (vm_compute; reflexivity).
  assert (Hn : names (beforeFebruary part_000) = rosterDenno)
    by (vm_compute; reflexivity).
  destruct (february_override stamp (beforeFebruary part_000) "Ann" "Bob" Hp Hm)
    as (r & Hh & Hmon & Hfound & _).
  assert (Hd : firstDennis (names (beforeFebruary part_000)) 4 "Denno").
  { rewrite Hn. split; [reflexivity|]. split; [vm_compute; reflexivity|].
    intros j n Hj Hjn.
    destruct j as [|[|[|[|j]]]]; [| | | |lia]; injection Hjn as <-;
      vm_compute; reflexivity. }
  destruct (Hfound 4%nat "Denno" Hd) as [_ Hsub].
  assert (Hnot : ~ In "Denno" ["Ann"; "Bob"]).
  { intros [H|[H|[]]]; discriminate H. }
  destruct (Hsub Hnot) as [Hpair Hord].
  exists r. split; [exact Hh|]. split; [exact Hmon|]. split; [exact Hpair|].
  unfold afterFebruary, saveMonthOf. rewrite Hord. vm_compute. reflexivity.
Defined.

(** ** Operations one at a time *)

Lemma draw_cases (rnd : Q) (s : State) :
  timer s = None -> spinning s = false -> unit_interval rnd ->
  (draw rnd s = s
   /\ (remainingNames s = [] \/ (2 <= List.length (tempPair s))%nat))
  \/ (exists w,
        In w (remainingNames s)
        /\ (List.length (tempPair s) < 2)%nat
        /\ draw rnd s =
             {| names := names s; emojis := emojis s;
                order := order s ++ [w];
                locked := true;
                history := history s;
                spinning := false;
                currentPick := Some w;
                tempPair := tempPair s ++ [w];
                timer := None |}).
Proof.
  intros Ht Hs Hrnd.
  destruct (remainingNames s) as [|x r] eqn:Er.
  - left. split; [|now left].
    unfold draw, spinWheel. rewrite Er, Hs. cbn.
    unfold spinTimeout. now rewrite Ht.
  - destruct (Nat.leb_spec 2 (List.length (tempPair s))) as [Hge|Hlt].
    + left. split; [|now right].
      unfold draw, spinWheel. rewrite Er, Hs. cbn [List.length Nat.eqb orb].
      destruct (Nat.leb_spec 2 (List.length (tempPair s))); [|lia].
      unfold spinTimeout. now rewrite Ht.
    + right.
      assert (Hne : remainingNames s <> []) by (rewrite Er; discriminate).
      assert (Hc : (0 < List.length (remainingNames s))%nat)
        by (rewrite Er; cbn; lia).
      pose proof (pickIndex_lt rnd _ Hrnd Hc) as Hidx.
      destruct (nth_error (remainingNames s)
                  (pickIndex rnd (List.length (remainingNames s)))) as [w|] eqn:E.
      2:{ apply nth_error_None in E. lia. }
      exists w. split; [rewrite <- Er; eapply nth_error_In; exact E|].
      split; [exact Hlt|].
      unfold draw. rewrite (spinWheel_accepted rnd s Hs Hne Hlt).
      unfold spinTimeout. cbn [timer t_remainingNames t_pickIndex].
      rewrite E. reflexivity.
Qed.

Lemma save_cases (c : Copy) (now : string) (s : State) :
  ruleOut c s ->
  ((List.length (tempPair s) < 2)%nat
   /\ saveMonthOf c now s = (s, [Alert NEED_TWO]))
  \/ ((2 <= List.length (tempPair s))%nat
      /\ exists g,
           saveMonthOf c now s =
             (saved s (order s)
                {| MonthRecord.month := monthOf (history s);
                   MonthRecord.pair := tempPair s;
                   MonthRecord.date := now;
                   MonthRecord.emojis := g |}, [Confetti])).
Proof.
  intros Hout.
  destruct (Nat.ltb_spec (List.length (tempPair s)) 2) as [Hlt|Hge].
  - left. split; [exact Hlt | now apply saveMonthOf_rejects].
  - right. split; [exact Hge|].
    destruct c; cbn [saveMonthOf]; unfold Page.saveMonth, Part000.saveMonth;
      destruct (Nat.ltb_spec (List.length (tempPair s)) 2); try lia.
    + eexists. reflexivity.
    + destruct Hout as [Hc|Hno]; [discriminate|].
      apply dennisIndex_none in Hno.
      unfold Part000.february. rewrite Hno.
      destruct (String.eqb _ _); eexists; reflexivity.
Qed.

Lemma setAt_length {A : Type} (i : nat) (v : A) (l : list A) :
  List.length (JS.setAt i v l) = List.length l.
Proof.
  revert i. induction l as [|x l IH]; intros [|i]; cbn; auto.
Qed.

Lemma trim_nonblank_nonempty (n : string) : JS.trim n <> "" -> n <> "".
Proof. intros H ->. apply H. reflexivity. Qed.

Lemma edit_engineInv (i : nat) (v : string) (s : State) :
  engineInv s -> engineInv (editName i v s).
Proof.
  intros H. unfold editName. destruct (locked s) eqn:El; [exact H|].
  destruct H as (Ht & Hs & Hn & Hm & Hl & Hc & Hk & Hz).
  unfold engineInv, counting in *. cbn. rewrite El in *.
  specialize (Hk eq_refl).
  repeat split; auto.
  - rewrite Hk in H. contradiction.
  - rewrite Hk in H. contradiction.
  - rewrite setAt_length. exact Hz.
Qed.

Lemma draw_engineInv (rnd : Q) (s : State) :
  unit_interval rnd -> engineInv s -> engineInv (draw rnd s).
Proof.
  intros Hrnd H.
  destruct H as (Ht & Hs & Hn & Hm & Hl & Hc & Hk & Hz).
  destruct (draw_cases rnd s Ht Hs Hrnd) as [[E _]|(w & Hw & Hlt & E)];
    rewrite E; [unfold engineInv; auto 10|].
  apply remainingNames_spec in Hw. destruct Hw as (Hwn & Hwb & Hwo).
  unfold engineInv, counting in *. cbn.
  repeat split; auto.
  - apply NoDup_app; [exact Hn | repeat constructor; intros [] | ].
    intros x Hx [<-|[]]. contradiction.
  - apply in_app_or in H. destruct H as [H|[<-|[]]]; [apply Hm; exact H | exact Hwb].
  - apply in_app_or in H. destruct H as [H|[<-|[]]]; [apply Hm; exact H | exact Hwn].
  - rewrite length_app. cbn. lia.
  - rewrite !length_app. cbn. lia.
  - discriminate.
Qed.

Lemma save_engineInv (c : Copy) (now : string) (s : State) :
  ruleOut c s -> engineInv s -> engineInv (fst (saveMonthOf c now s)).
Proof.
  intros Hout H.
  destruct (save_cases c now s Hout) as [[_ E]|(Hge & g & E)]; rewrite E;
    [exact H|].
  destruct H as (Ht & Hs & Hn & Hm & Hl & Hc & Hk & Hz).
  unfold engineInv, counting in *. cbn.
  repeat split; auto; try (apply Hm; assumption);
    try discriminate; try (rewrite length_app; cbn); lia.
Qed.

Lemma reset_engineInv (s : State) : engineInv s -> engineInv (resetChama s).
Proof.
  intros (Ht & Hs & _). unfold engineInv, counting. cbn.
  repeat split; auto; try contradiction; try constructor.
Qed.

Lemma empty_engineInv : engineInv empty.
Proof.
  unfold engineInv, counting. cbn.
  repeat split; auto; try contradiction; try constructor.
Qed.

Lemma op_engineInv (c : Copy) (op : Op) (s : State) :
  validOp op -> ruleOut c s -> engineInv s -> engineInv (run c (expand op) s).
Proof.
  intros Hv Hout H. destruct op as [i v|rnd|now|]; cbn.
  - now apply edit_engineInv.
  - now apply draw_engineInv.
  - now apply save_engineInv.
  - now apply reset_engineInv.
Qed.

Lemma perform_cons (c : Copy) (op : Op) (ops : list Op) (s : State) :
  perform c (op :: ops) s = perform c ops (run c (expand op) s).
Proof. unfold perform, run. cbn. now rewrite fold_left_app. Qed.

Lemma perform_app (c : Copy) (ops1 ops2 : list Op) (s : State) :
  perform c (ops1 ++ ops2) s = perform c ops2 (perform c ops1 s).
Proof.
  unfold perform, run. now rewrite flat_map_app, fold_left_app.
Qed.

(** In the copy without the February rule, whatever the operations, the draw
    order holds distinct, non-blank roster names, and its length is twice the
    number of records plus the pending winners. *)
Lemma page_engineInv (ops : list Op) (s : State) :
  Forall validOp ops -> engineInv s -> engineInv (perform page_tsx ops s).
Proof.
  revert s. induction ops as [|op ops IH]; intros s Hv H; [exact H|].
  rewrite perform_cons. inversion Hv; subst.
  apply IH; [assumption|]. apply op_engineInv; [assumption | now left | exact H].
Qed.

Lemma engineInv_order (s : State) : engineInv s -> orderInvariant s.
Proof.
  intros (_ & _ & Hn & Hm & _). split; [|exact Hn].
  intros n Hin. destruct (Hm n Hin) as [Hb Hi].
  split; [now apply trim_nonblank_nonempty | exact Hi].
Qed.

Lemma page_keeps_invariants (ops : list Op) :
  Forall validOp ops ->
  orderInvariant (perform page_tsx ops empty)
  /\ counting (perform page_tsx ops empty).
Proof.
  intros Hv. pose proof (page_engineInv ops empty Hv empty_engineInv) as H.
  split; [now apply engineInv_order | apply H].
Qed.

(** ** The February substitution and the two invariants *)

Lemma februaryDraws_valid : Forall validOp februaryDraws.
Proof.
  unfold februaryDraws. apply Forall_app. split; [apply typeOps_valid|].
  cbn. repeat (apply Forall_cons || apply Forall_nil);
    cbn; first [exact I | apply half_in_unit | apply zero_in_unit].
Qed.

Lemma afterFebruary_perform (c : Copy) :
  afterFebruary c = perform c (februaryDraws ++ [OpFinalize stamp]) empty.
Proof. rewrite perform_app. reflexivity. Qed.

Lemma afterFebruary_reachable (c : Copy) :
  Reachable c empty (afterFebruary c).
Proof.
  rewrite afterFebruary_perform. apply perform_reachable.
  apply Forall_app. split; [apply februaryDraws_valid|].
  apply Forall_cons; [exact I | apply Forall_nil].
Qed.

(** C2, evaluated in [part_000]: Cate and Dan are drawn and saved for January,
    Ann and Bob are drawn for February, and the save puts Denno in the place
    of Ann.  The draw order of the state reached lists Bob twice, so the
    invariant of the draw order fails there; the same operations in the other
    copy keep it. *)
Theorem february_duplicates_draw_order :
  Reachable part_000 empty (afterFebruary part_000)
  /\ order (afterFebruary part_000) = ["Cate"; "Dan"; "Bob"; "Denno"; "Bob"]
  /\ ~ NoDup (order (afterFebruary part_000))
  /\ ~ orderInvariant (afterFebruary part_000)
  /\ orderInvariant (afterFebruary page_tsx).
Proof.
  assert (E : order (afterFebruary part_000)
              = ["Cate"; "Dan"; "Bob"; "Denno"; "Bob"])
    by (vm_compute; reflexivity).
  assert (Hdup : ~ NoDup (order (afterFebruary part_000))).
  { rewrite E. intros H.
    inversion H as [|? ? _ H1]; subst. inversion H1 as [|? ? _ H2]; subst.
    inversion H2 as [|? ? Hin _]; subst. apply Hin. cbn. auto. }
  split; [apply afterFebruary_reachable|]. split; [exact E|].
  split; [exact Hdup|]. split.
  - intros [_ Hn]. exact (Hdup Hn).
  - rewrite afterFebruary_perform. apply page_keeps_invariants.
    apply Forall_app. split; [apply februaryDraws_valid|].
    apply Forall_cons; [exact I | apply Forall_nil].
Qed.

(** C5, evaluated in [part_000] on the same run: after the February save the
    draw order holds five names, the history two records and the pending pair
    none, so the length of the draw order is not twice the number of records
    plus the pending winners; the same operations in the other copy keep the
    identity. *)
Theorem february_breaks_counting :
  Reachable part_000 empty (afterFebruary part_000)
  /\ List.length (order (afterFebruary part_000)) = 5%nat
  /\ List.length (history (afterFebruary part_000)) = 2%nat
  /\ tempPair (afterFebruary part_000) = []
  /\ ~ counting (afterFebruary part_000)
  /\ counting (afterFebruary page_tsx).
Proof.
  split; [apply afterFebruary_reachable|].
  split; [vm_compute; reflexivity|].
  split; [vm_compute; reflexivity|].
  split; [vm_compute; reflexivity|].
  split.
  - unfold counting. vm_compute. discriminate.
  - rewrite afterFebruary_perform. apply page_keeps_invariants.
    apply Forall_app. split; [apply februaryDraws_valid|].
    apply Forall_cons; [exact I | apply Forall_nil].
Qed.

(** A reset while the wheel spins does not stop the timer: its winner lands
    in the draw order of a page whose roster is blank again. *)
Lemma reset_in_flight (c : Copy) :
  Reachable c empty (resetInFlight c)
  /\ order (resetInFlight c) = ["Ann"]
  /\ names (resetInFlight c) = repeat "" TOTAL_MEMBERS
  /\ ~ orderInvariant (resetInFlight c).
Proof.
  assert (Eo : order (resetInFlight c) = ["Ann"])
    by (destruct c; vm_compute; reflexivity).
  assert (En : names (resetInFlight c) = repeat "" TOTAL_MEMBERS)
    by (destruct c; vm_compute; reflexivity).
  split; [|split; [exact Eo | split; [exact En|]]].
  - apply (reachable_trans _ _ (seated c)); [apply seated_reachable|].
    apply run_reachable.
    repeat (apply Forall_cons || apply Forall_nil); cbn; try exact I.
    apply zero_in_unit.
  - intros [Hm _]. destruct (Hm "Ann") as [_ Hin].
    + rewrite Eo. now left.
    + rewrite En in Hin. cbn in Hin.
      repeat (destruct Hin as [Hin|Hin]; [discriminate Hin|]). exact Hin.
Qed.

(** ** Ten names give five months *)

Lemma firstn_snoc {A : Type} (d : A) (l : list A) (i : nat) :
  (i < List.length l)%nat -> firstn (S i) l = (firstn i l ++ [nth i l d])%list.
Proof.
  revert i. induction l as [|x l IH]; intros i Hi; cbn in Hi; [lia|].
  destruct i as [|i]; [reflexivity|].
  change (firstn (S (S i)) (x :: l)) with (x :: firstn (S i) l).
  rewrite (IH i) by lia. reflexivity.
Qed.

Lemma remaining_nonempty (s : State) :
  NoDup (names s) ->
  (forall n, In n (names s) -> JS.trim n <> "") ->
  (List.length (order s) < List.length (names s))%nat ->
  remainingNames s <> [].
Proof.
  intros Hn Hb Hlt He.
  assert (Hincl : incl (names s) (order s)).
  { intros n Hin. destruct (in_dec string_dec n (order s)) as [Ho|Ho]; [exact Ho|].
    assert (Hr : In n (remainingNames s)).
    { apply remainingNames_spec. auto. }
    rewrite He in Hr. contradiction. }
  pose proof (NoDup_incl_length Hn Hincl). lia.
Qed.

Lemma draw_rejected_when_exhausted (rnd : Q) (s : State) :
  timer s = None -> remainingNames s = [] -> draw rnd s = s.
Proof.
  intros Ht He. unfold draw, spinWheel. rewrite He. cbn [List.length Nat.eqb].
  rewrite orb_true_r. cbn [orb]. unfold spinTimeout. now rewrite Ht.
Qed.

Lemma engineInv_bound (s : State) :
  engineInv s ->
  (List.length (order s) <= TOTAL_MEMBERS)%nat
  /\ (List.length (history s) <= 5)%nat.
Proof.
  intros (_ & _ & Hn & Hm & _ & Hc & _ & Hz).
  assert (Hincl : incl (order s) (names s)) by (intros n Hin; now apply Hm).
  pose proof (NoDup_incl_length Hn Hincl) as Hle. rewrite Hz in Hle.
  unfold counting in Hc. unfold TOTAL_MEMBERS in *. split; lia.
Qed.


Lemma draw_accepts (rnd : Q) (s : State) :
  engineInv s ->
  NoDup (names s) ->
  (forall n, In n (names s) -> JS.trim n <> "") ->
  (List.length (order s) < List.length (names s))%nat ->
  (List.length (tempPair s) < 2)%nat ->
  unit_interval rnd ->
  exists w,
    draw rnd s =
      {| names := names s; emojis := emojis s;
         order := order s ++ [w];
         locked := true;
         history := history s;
         spinning := false;
         currentPick := Some w;
         tempPair := tempPair s ++ [w];
         timer := None |}.
Proof.
  intros H Hn Hb Hlt Hp Hrnd.
  destruct H as (Ht & Hs & _).
  destruct (draw_cases rnd s Ht Hs Hrnd) as [[_ [He|Hge]]|(w & _ & _ & E)].
  - exfalso. exact (remaining_nonempty s Hn Hb Hlt He).
  - lia.
  - exists w. exact E.
Qed.

Lemma cycle_betweenMonths
    (c : Copy) (now : string) (roster : list string) (r : Q * Q) (s : State) :
  plainRoster roster -> validPair r -> betweenMonths roster s ->
  (List.length (history s) < 5)%nat ->
  let s' := perform c (cycleOps now r) s in
  betweenMonths roster s'
  /\ List.length (history s') = S (List.length (history s))
  /\ emojis s' = emojis s.
Proof.
  intros (Hlen & Hnd & Hblank & Hno) [Hr1 Hr2] (Hinv & Hnames & Htp & Hmon) Hh s'.
  assert (Hc : counting s) by apply Hinv.
  unfold counting in Hc. rewrite Htp in Hc. cbn in Hc.
  assert (s' = fst (saveMonthOf c now (draw (snd r) (draw (fst r) s))))
    as -> by reflexivity.
  (* first draw *)
  destruct (draw_accepts (fst r) s Hinv) as [w1 E1];
    try (rewrite Hnames; assumption); auto.
  { rewrite Hnames, Hlen. unfold TOTAL_MEMBERS. lia. }
  { rewrite Htp. cbn. lia. }
  pose proof (draw_engineInv (fst r) s Hr1 Hinv) as Hinv1.
  set (s1 := draw (fst r) s) in *.
  assert (Hn1 : names s1 = roster) by (rewrite E1; exact Hnames).
  assert (Ho1 : order s1 = (order s ++ [w1])%list) by (rewrite E1; reflexivity).
  assert (Hp1 : tempPair s1 = [w1]) by (rewrite E1; cbn; now rewrite Htp).
  assert (Hh1 : history s1 = history s) by (rewrite E1; reflexivity).
  assert (He1 : emojis s1 = emojis s) by (rewrite E1; reflexivity).
  (* second draw *)
  destruct (draw_accepts (snd r) s1 Hinv1) as [w2 E2];
    try (rewrite Hn1; assumption); auto.
  { rewrite Hn1, Hlen, Ho1, length_app. cbn. unfold TOTAL_MEMBERS. lia. }
  { rewrite Hp1. cbn. lia. }
  pose proof (draw_engineInv (snd r) s1 Hr2 Hinv1) as Hinv2.
  set (s2 := draw (snd r) s1) in *.
  assert (Hn2 : names s2 = roster) by (rewrite E2; exact Hn1).
  assert (Hp2 : tempPair s2 = [w1; w2]) by (rewrite E2; cbn; now rewrite Hp1).
  assert (Hh2 : history s2 = history s) by (rewrite E2; cbn; exact Hh1).
  assert (He2 : emojis s2 = emojis s) by (rewrite E2; cbn; exact He1).
  (* the save *)
  assert (Hout : ruleOut c s2) by (right; rewrite Hn2; exact Hno).
  pose proof (save_engineInv c now s2 Hout Hinv2) as Hinv3.
  destruct (save_cases c now s2 Hout) as [[Hlt _]|(_ & g & E3)].
  { rewrite Hp2 in Hlt. cbn in Hlt. lia. }
  rewrite E3 in Hinv3 |- *. cbn [fst] in Hinv3 |- *.
  set (s3 := saved s2 (order s2) _) in *.
  assert (Hh3 : history s3
                = (history s
                   ++ [{| MonthRecord.month := monthOf (history s);
                          MonthRecord.pair := tempPair s2;
                          MonthRecord.date := now;
                          MonthRecord.emojis := g |}])%list).
  { unfold s3, saved. cbn [history]. now rewrite Hh2. }
  assert (Hmonth : monthOf (history s)
                   = nth (List.length (history s)) MONTHS "").
  { unfold monthOf. now rewrite Nat.mod_small by lia. }
  split; [|split; [rewrite Hh3, length_app; cbn [List.length]; lia | exact He2]].
  split; [exact Hinv3|]. split; [exact Hn2|]. split; [reflexivity|].
  rewrite Hh3, map_app, length_app, Hmon.
  cbn [map List.length MonthRecord.month]. rewrite Nat.add_1_r, Hmonth.
  symmetry. apply firstn_snoc. cbn. lia.
Qed.

Lemma cycles_betweenMonths
    (c : Copy) (now : string) (roster : list string) (rs : list (Q * Q)) :
  plainRoster roster -> Forall validPair rs ->
  forall s,
    betweenMonths roster s ->
    (List.length (history s) + List.length rs <= 5)%nat ->
    let s' := perform c (cyclesOf now rs) s in
    betweenMonths roster s'
    /\ List.length (history s')
       = (List.length (history s) + List.length rs)%nat
    /\ emojis s' = emojis s.
Proof.
  intros Hplain Hv. induction Hv as [|r rs Hr _ IH]; intros s Hs Hle.
  - cbn. rewrite Nat.add_0_r. auto.
  - cbn [List.length] in Hle.
    change (cyclesOf now (r :: rs))
      with (cycleOps now r ++ cyclesOf now rs)%list.
    cbv zeta. rewrite perform_app.
    destruct (cycle_betweenMonths c now roster r s Hplain Hr Hs) as (H1 & H2 & H3);
      [lia|].
    destruct (IH _ H1) as (H4 & H5 & H6); [lia|].
    split; [exact H4|]. split; [|congruence].
    rewrite H5, H2. cbn. lia.
Qed.

Lemma mount_betweenMonths (roster e : list string) (l : bool) :
  List.length roster = TOTAL_MEMBERS ->
  betweenMonths roster (mount roster e [] l []).
Proof.
  intros Hlen. unfold betweenMonths, engineInv, counting. cbn.
  repeat split; auto; try contradiction. constructor.
Qed.

Lemma drawOrFinalize_keeps_roster
    (c : Copy) (roster : list string) (ops : list Op) :
  noDennis roster -> Forall validOp ops -> Forall drawOrFinalize ops ->
  forall s,
    engineInv s -> names s = roster ->
    engineInv (perform c ops s) /\ names (perform c ops s) = roster.
Proof.
  intros Hno Hv Hd. induction ops as [|op ops IH]; intros s Hinv Hn.
  - split; assumption.
  - rewrite perform_cons.
    apply Forall_cons_iff in Hv. destruct Hv as [Hop Hv].
    apply Forall_cons_iff in Hd. destruct Hd as [Hdf Hd].
    apply IH; try assumption.
    + apply op_engineInv; [assumption | right; rewrite Hn; exact Hno | exact Hinv].
    + destruct op as [i v|rnd|now|]; try contradiction.
      * change (names (draw rnd s) = roster).
        destruct Hinv as (Ht & Hs & _).
        destruct (draw_cases rnd s Ht Hs Hop) as [[E _]|(w & _ & _ & E)];
          rewrite E; assumption.
      * change (names (fst (saveMonthOf c now s)) = roster).
        destruct (saveMonthOf_frame c now s) as (_ & _ & E & _). now rewrite E.
Qed.

(** C9, as the code has it: on a roster of ten distinct non-blank names, none
    of them dennis or denno, with an empty draw order and history, any
    [k <= 5] cycles of two draws and a save all go through, in either copy:
    they leave [k] records labelled with the first [k] months, a draw order
    of [2k] distinct roster names and an empty pending pair.  After the fifth
    cycle every further draw is rejected, and no sequence of draws and saves
    brings the draw order past ten names or the history past five records. *)
Theorem ten_names_give_five_months
    (c : Copy) (roster e : list string) (l : bool) (now : string)
    (rs : list (Q * Q)) :
  plainRoster roster ->
  Forall validPair rs ->
  (List.length rs <= 5)%nat ->
  let s0 := mount roster e [] l [] in
  let s := perform c (cyclesOf now rs) s0 in
  List.length (history s) = List.length rs
  /\ map MonthRecord.month (history s) = firstn (List.length rs) MONTHS
  /\ List.length (order s) = (2 * List.length rs)%nat
  /\ NoDup (order s)
  /\ incl (order s) roster
  /\ tempPair s = []
  /\ (List.length rs = 5%nat -> forall rnd, draw rnd s = s)
  /\ (forall ops, Forall validOp ops -> Forall drawOrFinalize ops ->
        (List.length (order (perform c ops s0)) <= 10)%nat
        /\ (List.length (history (perform c ops s0)) <= 5)%nat).
Proof.
  intros Hplain Hv Hle s0 s.
  pose proof Hplain as (Hlen & Hnd & Hblank & Hno).
  pose proof (mount_betweenMonths roster e l Hlen) as H0. fold s0 in H0.
  destruct (cycles_betweenMonths c now roster rs Hplain Hv s0 H0)
    as ((Hinv & Hn & Htp & Hmon) & Hh & _); [cbn; lia|].
  fold s in Hinv, Hn, Htp, Hmon, Hh. cbn [s0 mount history List.length] in Hh.
  cbn in Hh.
  pose proof Hinv as (Ht & _ & Hnodup & Hmem & _ & Hc & _ & _).
  unfold counting in Hc. rewrite Htp, Hh in Hc. cbn [List.length] in Hc.
  assert (Hincl : incl (order s) roster).
  { intros n Hin. rewrite <- Hn. now apply Hmem. }
  split; [exact Hh|]. split; [now rewrite Hmon, Hh|].
  split; [lia|]. split; [exact Hnodup|]. split; [exact Hincl|].
  split; [exact Htp|]. split.
  - intros H5 rnd. apply draw_rejected_when_exhausted; [exact Ht|].
    assert (Hback : incl roster (order s)).
    { apply (NoDup_length_incl Hnodup); [|exact Hincl].
      rewrite Hlen. unfold TOTAL_MEMBERS. lia. }
    destruct (remainingNames s) as [|x r] eqn:Er; [reflexivity|].
    assert (Hx : In x (remainingNames s)) by (rewrite Er; now left).
    apply remainingNames_spec in Hx. destruct Hx as (Hxn & _ & Hxo).
    exfalso. apply Hxo, Hback. now rewrite <- Hn.
  - intros ops Hvo Hdf.
    destruct (drawOrFinalize_keeps_roster c roster ops Hno Hvo Hdf s0)
      as [Hi _]; [apply H0 | reflexivity |].
    apply engineInv_bound in Hi. exact Hi.
Qed.

Lemma page_order_bound (ops : list Op) :
  Forall validOp ops ->
  (List.length (order (perform page_tsx ops (seated page_tsx))) <= 10)%nat
  /\ (List.length (history (perform page_tsx ops (seated page_tsx))) <= 5)%nat.
Proof.
  intros Hv. unfold seated. rewrite <- perform_app.
  apply engineInv_bound, page_engineInv; [|apply empty_engineInv].
  apply Forall_app. split; [apply typeOps_valid | exact Hv].
Qed.

(** C9 as stated fails.  Asked for twelve months, the seated page of ten names
    completes five: the history stops at five records and the draw order at
    ten names.  No sequence of operations at all reaches a draw order of
    twenty-four names or a history of twelve records in [page.tsx]. *)
Lemma twenty_four_draws_impossible :
  List.length (history (twelveAsked page_tsx)) = 5%nat
  /\ List.length (order (twelveAsked page_tsx)) = 10%nat
  /\ ~ (exists ops,
          Forall validOp ops
          /\ (List.length (order (perform page_tsx ops (seated page_tsx)))
              = 24%nat
              \/ List.length (history (perform page_tsx ops (seated page_tsx)))
                 = 12%nat)).
Proof.
  split; [vm_compute; reflexivity|]. split; [vm_compute; reflexivity|].
  intros (ops & Hv & H). destruct (page_order_bound ops Hv) as [Ho Hh]. lia.
Qed.

Lemma roster10_plain : plainRoster roster10.
Proof.
  split; [reflexivity|]. split; [|split].
  - unfold roster10.
    repeat (apply NoDup_cons; [cbn; intuition discriminate|]). apply NoDup_nil.
  - intros n Hin. cbn in Hin.
    repeat (destruct Hin as [<-|Hin]; [vm_compute; discriminate|]).
    contradiction.
  - intros n Hin. cbn in Hin.
    repeat (destruct Hin as [<-|Hin]; [vm_compute; reflexivity|]).
    contradiction.
Qed.

Lemma ten_names_give_five_months_witness :
  let s := perform page_tsx (cyclesOf stamp (repeat (0%Q, 0%Q) 5))
             (mount roster10 DEFAULT_EMOJIS [] false []) in
  List.length (history s) = 5%nat
  /\ map MonthRecord.month (history s)
     = ["January"; "February"; "March"; "April"; "May"]
  /\ List.length (order s) = 10%nat
  /\ tempPair s = []
  /\ draw (1 # 3) s = s.
Proof.
  assert (Hv : Forall validPair (repeat (0%Q, 0%Q) 5)).
  { repeat (apply Forall_cons; [split; apply zero_in_unit|]). apply Forall_nil. }
  assert (Hle : (List.length (repeat (0%Q, 0%Q) 5) <= 5)%nat) by (cbn; lia).
  destruct (ten_names_give_five_months page_tsx roster10 DEFAULT_EMOJIS false
              stamp (repeat (0%Q, 0%Q) 5) roster10_plain Hv Hle)
    as (H1 & H2 & H3 & _ & _ & H6 & H7 & _).
  cbv zeta. split; [exact H1|]. split; [exact H2|]. split; [exact H3|].
  split; [exact H6|]. apply H7. reflexivity.
Defined.

(** ** Loading the stored state *)

Section LoadProperties.

Variable Date_getTime : Store.JSON -> option Z.
Variable toISOString : Z -> string.

Lemma expired_iff (now t : Z) (sv : Store.JSON) :
  Date_getTime sv = Some t ->
  Store.expired Date_getTime now sv = true
  <-> (now - t > EXPIRY_DAYS * Store.MS_PER_DAY)%Z.
Proof.
  intros Hd. unfold Store.expired. rewrite Hd.
  rewrite negb_true_iff, <- not_true_iff_false, Qle_bool_iff.
  unfold Store.diffDays, Qle, Qdiv, Qmult, Qinv, inject_Z, EXPIRY_DAYS,
    Store.MS_PER_DAY.
  cbn. lia.
Qed.

Lemma raises_timed (sv : Store.JSON) (t : Z) :
  Date_getTime sv = Some t -> Store.raises Date_getTime (Some sv) = false.
Proof. intros Hd. unfold Store.raises. rewrite Hd. apply andb_false_r. Qed.

Lemma raises_spec (sv : option Store.JSON) :
  Store.raises Date_getTime sv = true
  <-> exists v, sv = Some v /\ Store.truthy sv = true
                /\ Date_getTime v = None /\ Store.toStringThrows v = true.
Proof.
  unfold Store.raises. destruct sv as [v|].
  - rewrite andb_true_iff. split.
    + intros [Ht Hx]. exists v. destruct (Date_getTime v); [discriminate|].
      auto.
    + intros (v' & E & Ht & Hd & Hx). injection E as <-. rewrite Hd. auto.
  - split; [discriminate|]. intros (v & E & _). discriminate.
Qed.

Lemma raises_plain (sv : option Store.JSON) :
  (forall v, sv = Some v -> Store.toStringThrows v = false) ->
  Store.raises Date_getTime sv = false.
Proof.
  intros H. apply not_true_iff_false. rewrite raises_spec.
  intros (v & E & _ & _ & Hx). rewrite (H v E) in Hx. discriminate.
Qed.

(** C6: a stored blob whose [savedAt] is set and stands for a time more than
    seven days before [now] makes [loadStoredData] return the defaults (ten
    blank names, the default avatars, empty order, unlocked, empty history)
    and remove the item from the storage.  A blob of seven days or less is
    not expired: it stays in the storage and its fields are read. *)
Theorem stale_blob_is_dropped
    (now t : Z) (parsed sv : Store.JSON) :
  Store.prop parsed "savedAt" = Some sv ->
  Store.truthy (Some sv) = true ->
  Date_getTime sv = Some t ->
  ((now - t > 7 * (1000 * 60 * 60 * 24))%Z ->
     Store.loadStoredData Date_getTime toISOString true now
       (Some (Store.Doc parsed))
     = ({| Store.names := repeat (Store.JStr "") 10;
           Store.emojis := map Store.JStr DEFAULT_EMOJIS;
           Store.order := [];
           Store.locked := false;
           Store.history := [];
           Store.savedAt := Store.JStr (toISOString now) |}, None))
  /\ ((now - t <= 7 * (1000 * 60 * 60 * 24))%Z ->
        Store.loadStoredData Date_getTime toISOString true now
          (Some (Store.Doc parsed))
        = ({| Store.names :=
                Store.arrayOr (Store.prop parsed "names") Store.defaultNames;
              Store.emojis :=
                Store.arrayOr (Store.prop parsed "emojis") Store.defaultEmojis;
              Store.order := Store.arrayOr (Store.prop parsed "order") [];
              Store.locked := Store.truthy (Store.prop parsed "locked");
              Store.history := Store.arrayOr (Store.prop parsed "history") [];
              Store.savedAt := sv |}, Some (Store.Doc parsed))).
Proof.
  intros Hp Htr Hd.
  assert (Hobj : parsed <> Store.JNull) by (intros ->; discriminate Hp).
  pose proof (expired_iff now t sv Hd) as Hexp.
  change (EXPIRY_DAYS * Store.MS_PER_DAY)%Z
    with (7 * (1000 * 60 * 60 * 24))%Z in Hexp.
  unfold Store.loadStoredData, Store.tryLoad. cbn [negb].
  assert (Hr : Store.raises Date_getTime (Store.prop parsed "savedAt") = false).
  { rewrite Hp. exact (raises_timed sv t Hd). }
  split; intros Hage.
  - assert (Hs : Store.stale Date_getTime now (Store.prop parsed "savedAt") = true).
    { rewrite Hp. unfold Store.stale. rewrite Htr. cbn [andb].
      apply Hexp. exact Hage. }
    destruct parsed; try congruence; rewrite Hr, Hs; reflexivity.
  - assert (Hs : Store.stale Date_getTime now (Store.prop parsed "savedAt") = false).
    { rewrite Hp. unfold Store.stale. rewrite Htr. cbn [andb].
      apply not_true_iff_false. rewrite Hexp. lia. }
    assert (Hsv : Store.savedAtOr toISOString now (Store.prop parsed "savedAt") = sv).
    { rewrite Hp. unfold Store.savedAtOr. now rewrite Htr. }
    destruct parsed; try congruence; rewrite Hr, Hs, Hsv; reflexivity.
Qed.

End LoadProperties.

Lemma stale_blob_is_dropped_witness :
  Store.loadStoredData Store.numericDate Store.sampleISO true
    (10 * Store.MS_PER_DAY) (Some (Store.Doc (Store.blobAt (2 * Store.MS_PER_DAY))))
  = (Store.defaults Store.sampleISO (10 * Store.MS_PER_DAY), None)
  /\ snd (Store.loadStoredData Store.numericDate Store.sampleISO true
            (10 * Store.MS_PER_DAY)
            (Some (Store.Doc (Store.blobAt (3 * Store.MS_PER_DAY)))))
     = Some (Store.Doc (Store.blobAt (3 * Store.MS_PER_DAY))).
Proof.
  split.
  - refine (proj1 (stale_blob_is_dropped Store.numericDate Store.sampleISO
                     (10 * Store.MS_PER_DAY) (2 * Store.MS_PER_DAY)
                     (Store.blobAt (2 * Store.MS_PER_DAY))
                     (Store.JNum (inject_Z (2 * Store.MS_PER_DAY)))
                     _ _ _) _);
      vm_compute; reflexivity.
  - rewrite (proj2 (stale_blob_is_dropped Store.numericDate Store.sampleISO
                      (10 * Store.MS_PER_DAY) (3 * Store.MS_PER_DAY)
                      (Store.blobAt (3 * Store.MS_PER_DAY))
                      (Store.JNum (inject_Z (3 * Store.MS_PER_DAY)))
                      eq_refl eq_refl eq_refl)).
    + reflexivity.
    + vm_compute. discriminate.
Defined.

(** C7 as stated fails: a fresh blob whose [names] is an array of numbers and
    whose [locked] is a text keeps both, where a check of the shapes (a
    sequence of text, a boolean) would have put the defaults; only the
    [history] that is no array at all is replaced. *)
Lemma load_does_not_check_shapes :
  let d := fst (Store.loadStoredData Store.numericDate Store.sampleISO true
                  2000 (Some (Store.Doc Store.oddBlob))) in
  Store.stale Store.numericDate 2000 (Store.prop Store.oddBlob "savedAt") = false
  /\ Store.isSeqOf Store.isText (Store.prop Store.oddBlob "names") = false
  /\ Store.names d = [Store.JNum 1]
  /\ Store.names d
     <> Store.checkedSeq Store.isText (Store.prop Store.oddBlob "names")
          Store.defaultNames
  /\ Store.isBoolean (Store.prop Store.oddBlob "locked") = false
  /\ Store.locked d = true
  /\ Store.locked d <> Store.checkedBool (Store.prop Store.oddBlob "locked")
  /\ Store.history d
     = Store.checkedSeq Store.isRecord (Store.prop Store.oddBlob "history") [].
Proof.
  cbv zeta. repeat split; try (vm_compute; reflexivity);
    vm_compute; discriminate.
Qed.

(** C7, as the code has it: for a fresh blob that parses to a value other
    than [null] and whose [savedAt] does not make [new Date] throw, each of
    [names], [emojis], [order] and [history] is the stored value when that is
    an array (its elements are not looked at) and its own default otherwise;
    [locked] is the truthiness of the stored value, so a stored boolean is
    kept and a missing one gives [false]; the blob stays in the storage.  The
    one field whose value bears on the others is [savedAt]: when it is an
    object with an own [toString] property, or an array that holds such an
    object, [new Date] throws and the load returns the defaults for every
    field, the blob staying in the storage.  A [savedAt] that is missing, or a
    text, a number, a boolean or [null], never does so. *)
Theorem load_defaults_field_by_field
    (Date_getTime : Store.JSON -> option Z) (toISOString : Z -> string)
    (now : Z) (parsed : Store.JSON) :
  parsed <> Store.JNull ->
  Store.stale Date_getTime now (Store.prop parsed "savedAt") = false ->
  let r := Store.loadStoredData Date_getTime toISOString true now
             (Some (Store.Doc parsed)) in
  let thrown := Store.raises Date_getTime (Store.prop parsed "savedAt") in
  (thrown = false ->
     snd r = Some (Store.Doc parsed)
     /\ Store.keptIfArray (Store.prop parsed "names") Store.defaultNames
          (Store.names (fst r))
     /\ Store.keptIfArray (Store.prop parsed "emojis") Store.defaultEmojis
          (Store.emojis (fst r))
     /\ Store.keptIfArray (Store.prop parsed "order") [] (Store.order (fst r))
     /\ Store.keptIfArray (Store.prop parsed "history") []
          (Store.history (fst r))
     /\ Store.locked (fst r) = Store.truthy (Store.prop parsed "locked")
     /\ (forall b, Store.prop parsed "locked" = Some (Store.JBool b) ->
           Store.locked (fst r) = b)
     /\ (Store.prop parsed "locked" = None -> Store.locked (fst r) = false))
  /\ (thrown = true ->
        r = ({| Store.names := repeat (Store.JStr "") 10;
                Store.emojis := map Store.JStr DEFAULT_EMOJIS;
                Store.order := [];
                Store.locked := false;
                Store.history := [];
                Store.savedAt := Store.JStr (toISOString now) |},
             Some (Store.Doc parsed)))
  /\ (thrown = true <->
        exists sv, Store.prop parsed "savedAt" = Some sv
                   /\ Store.truthy (Some sv) = true
                   /\ Date_getTime sv = None
                   /\ Store.toStringThrows sv = true)
  /\ (forall fields, Store.toStringThrows (Store.JObj fields) = true
                     <-> exists v, Store.assoc "toString" fields = Some v)
  /\ (forall l, Store.toStringThrows (Store.JArr l) = true
                <-> exists v, In v l /\ Store.toStringThrows v = true)
  /\ (forall v, (forall fields, v <> Store.JObj fields) ->
                (forall l, v <> Store.JArr l) ->
                Store.toStringThrows v = false).
Proof.
  intros Hnull Hfresh r thrown.
  assert (Hk : forall v d, Store.keptIfArray v d (Store.arrayOr v d)).
  { intros v d. split.
    - intros l ->. reflexivity.
    - intros Hno. destruct v as [[]|]; try reflexivity.
      exfalso. eapply Hno. reflexivity. }
  split; [|split; [|split; [|split; [|split]]]].
  - intros Hno.
    assert (Er : r = ({| Store.names :=
                           Store.arrayOr (Store.prop parsed "names") Store.defaultNames;
                         Store.emojis :=
                           Store.arrayOr (Store.prop parsed "emojis") Store.defaultEmojis;
                         Store.order := Store.arrayOr (Store.prop parsed "order") [];
                         Store.locked := Store.truthy (Store.prop parsed "locked");
                         Store.history := Store.arrayOr (Store.prop parsed "history") [];
                         Store.savedAt :=
                           Store.savedAtOr toISOString now
                             (Store.prop parsed "savedAt") |},
                      Some (Store.Doc parsed))).
    { unfold r, Store.loadStoredData, Store.tryLoad. cbn [negb].
      unfold thrown in Hno.
      destruct parsed; try congruence; rewrite Hno, Hfresh; reflexivity. }
    rewrite Er. cbn [fst snd Store.names Store.emojis Store.order Store.locked
                       Store.history].
    split; [reflexivity|]. repeat (split; [apply Hk|]).
    split; [reflexivity|]. split.
    + intros b ->. reflexivity.
    + intros ->. reflexivity.
  - intros Hyes. unfold r, Store.loadStoredData, Store.tryLoad. cbn [negb].
    unfold thrown in Hyes.
    destruct parsed; try congruence; rewrite Hyes; reflexivity.
  - unfold thrown. rewrite raises_spec. split.
    + intros (v & E & Ht & Hd & Hx). exists v. rewrite <- E. auto.
    + intros (v & E & Ht & Hd & Hx). exists v. rewrite E. auto.
  - intros fields. cbn [Store.toStringThrows].
    destruct (Store.assoc "toString" fields) as [v|].
    + split; [intros _; now exists v | reflexivity].
    + split; [discriminate | intros [v Hv]; discriminate].
  - intros l. cbn [Store.toStringThrows]. apply existsb_exists.
  - intros v Ho Ha. destruct v; try reflexivity.
    + exfalso. now apply (Ha l).
    + exfalso. now apply (Ho fields).
Qed.

Lemma load_defaults_field_by_field_witness :
  (let r := Store.loadStoredData Store.numericDate Store.sampleISO true 2000
              (Some (Store.Doc Store.oddBlob)) in
   snd r = Some (Store.Doc Store.oddBlob)
   /\ Store.locked (fst r) = Store.truthy (Store.prop Store.oddBlob "locked"))
  /\ Store.loadStoredData Store.numericDate Store.sampleISO true 2000
       (Some (Store.Doc Store.throwingBlob))
     = (Store.defaults Store.sampleISO 2000,
        Some (Store.Doc Store.throwingBlob)).
Proof.
  split.
  - assert (Hn : Store.oddBlob <> Store.JNull) by discriminate.
    assert (Hf : Store.stale Store.numericDate 2000
                   (Store.prop Store.oddBlob "savedAt") = false)
      by (vm_compute; reflexivity).
    assert (Hr : Store.raises Store.numericDate
                   (Store.prop Store.oddBlob "savedAt") = false)
      by (vm_compute; reflexivity).
    destruct (load_defaults_field_by_field Store.numericDate Store.sampleISO
                2000 Store.oddBlob Hn Hf) as (H & _).
    destruct (H Hr) as (H1 & _ & _ & _ & _ & H6 & _).
    cbv zeta. split; [exact H1 | exact H6].
  - assert (Hn : Store.throwingBlob <> Store.JNull) by discriminate.
    assert (Hf : Store.stale Store.numericDate 2000
                   (Store.prop Store.throwingBlob "savedAt") = false)
      by (vm_compute; reflexivity).
    assert (Hr : Store.raises Store.numericDate
                   (Store.prop Store.throwingBlob "savedAt") = true)
      by (vm_compute; reflexivity).
    destruct (load_defaults_field_by_field Store.numericDate Store.sampleISO
                2000 Store.throwingBlob Hn Hf) as (_ & H & _).
    exact (H Hr).
Defined.

(** ** The avatars of a record *)

Lemma indexOf_Some (l : list string) (w : string) (k : nat) :
  JS.indexOf l w = Some k
  <-> nth_error l k = Some w
      /\ (forall j, (j < k)%nat -> nth_error l j <> Some w).
Proof.
  unfold JS.indexOf. rewrite <- (map_id l) at 1.
  rewrite (findIndex_Some (String.eqb w) (fun x => x) l k). split.
  - intros (d & Hn & Hp & Hfirst). apply String.eqb_eq in Hp. subst d.
    split; [exact Hn|]. intros j Hj Hjn.
    specialize (Hfirst j w Hj Hjn). rewrite String.eqb_refl in Hfirst.
    discriminate.
  - intros [Hn Hfirst]. exists w. split; [exact Hn|].
    split; [apply String.eqb_refl|]. intros j n Hj Hjn.
    apply String.eqb_neq. intros <-. exact (Hfirst j Hj Hjn).
Qed.

Lemma indexOf_None (l : list string) (w : string) :
  JS.indexOf l w = None <-> ~ In w l.
Proof.
  unfold JS.indexOf. rewrite <- (map_id l) at 1.
  rewrite (findIndex_None (String.eqb w) (fun x => x) l). split.
  - intros H Hin. specialize (H w Hin). rewrite String.eqb_refl in H.
    discriminate.
  - intros H n Hin. apply String.eqb_neq. intros <-. exact (H Hin).
Qed.

Lemma glyphSpec_glyphOf (names emojis : list string) (w : string)
    (g : option string) :
  glyphSpec names emojis w g <-> g = Part000.glyphOf names emojis w.
Proof.
  unfold glyphSpec, Part000.glyphOf. split.
  - intros [(k & Hn & Hfirst & ->)|[Hno ->]].
    + rewrite (proj2 (indexOf_Some names w k) (conj Hn Hfirst)). reflexivity.
    + rewrite (proj2 (indexOf_None names w) Hno). reflexivity.
  - intros ->. destruct (JS.indexOf names w) as [k|] eqn:E.
    + left. exists k. apply indexOf_Some in E. destruct E. auto.
    + right. apply indexOf_None in E. auto.
Qed.

(** In [part_000] the avatars of a new record are those of the specification:
    winner by winner, the avatar at the roster slot of the name, the
    celebration glyph for a name that is not in the roster. *)
Lemma part_000_record_avatars (now : string) (s : State) :
  (2 <= List.length (tempPair s))%nat ->
  exists r,
    history (fst (Part000.saveMonth now s)) = (history s ++ [r])%list
    /\ Forall2 (glyphSpec (names s) (emojis s))
         (MonthRecord.pair r) (MonthRecord.emojis r).
Proof.
  intros Hge. unfold Part000.saveMonth.
  destruct (Nat.ltb_spec (List.length (tempPair s)) 2); [lia|].
  destruct (if String.eqb _ _ then _ else _) as [finalPair order'].
  eexists. split; [reflexivity|]. cbn [MonthRecord.pair MonthRecord.emojis].
  induction finalPair as [|w l IH]; cbn; constructor; [|exact IH].
  apply glyphSpec_glyphOf. reflexivity.
Qed.

(** C8, evaluated in [page.tsx]: Cate and Dan, at the roster slots 2 and 3,
    are the pending winners.  The record of the save carries the avatars of
    the slots 0 and 1, the positions of the two winners inside the pair,
    where the lookup by name gives those of the slots 2 and 3. *)
Theorem page_record_avatars_by_pair_position :
  let s := januaryDrawn page_tsx in
  tempPair s = ["Cate"; "Dan"]
  /\ exists r,
       history (fst (Page.saveMonth stamp s)) = [r]
       /\ MonthRecord.pair r = ["Cate"; "Dan"]
       /\ MonthRecord.emojis r = [Some "🦁"; Some "🐵"]
       /\ map (Part000.glyphOf (names s) (emojis s)) (MonthRecord.pair r)
          = [Some "🐸"; Some "🦊"]
       /\ ~ Forall2 (glyphSpec (names s) (emojis s))
              (MonthRecord.pair r) (MonthRecord.emojis r).
Proof.
  cbv zeta. split; [vm_compute; reflexivity|].
  eexists. split; [vm_compute; reflexivity|].
  cbn [MonthRecord.pair MonthRecord.emojis].
  split; [reflexivity|]. split; [reflexivity|].
  split; [vm_compute; reflexivity|].
  intros H. inversion H as [|w g l1 l2 Hg _]; subst.
  apply glyphSpec_glyphOf in Hg. vm_compute in Hg. discriminate Hg.
Qed.

(** ** The two copies of [saveMonth] *)




(** * Further properties of the handlers *)

(** ** What every reachable state keeps *)

Lemma saveMonthOf_accepted (c : Copy) (now : string) (s : State) :
  (2 <= List.length (tempPair s))%nat ->
  exists o r,
    saveMonthOf c now s = (saved s o r, [Confetti])
    /\ MonthRecord.month r = monthOf (history s)
    /\ MonthRecord.date r = now.
Proof.
  intros Hge.
  destruct c; cbn [saveMonthOf]; unfold Page.saveMonth, Part000.saveMonth;
    destruct (Nat.ltb_spec (List.length (tempPair s)) 2); try lia.
  - eexists _, _. split; [reflexivity|]. split; reflexivity.
  - destruct (if String.eqb _ _ then _ else _) as [fp o].
    eexists _, _. split; [reflexivity|]. split; reflexivity.
Qed.

Lemma step_pendingInv (c : Copy) (a : Action) (s : State) :
  bufferInv s -> pendingInv s -> pendingInv (step c a s).
Proof.
  intros Hb (Hsuf & Hnd & Hw). destruct a as [i v|rnd| |now|]; cbn [step].
  - unfold editName. destruct (locked s); exact (conj Hsuf (conj Hnd Hw)).
  - unfold spinWheel.
    destruct (spinning s || (List.length (remainingNames s) =? 0)%nat
              || (2 <=? List.length (tempPair s))%nat);
      [exact (conj Hsuf (conj Hnd Hw))|].
    split; [exact Hsuf|]. split; [exact Hnd|].
    cbn [timer order]. intros t w [= <-]. unfold winnerOf.
    cbn [t_remainingNames t_pickIndex]. intros Hn.
    apply nth_error_In, remainingNames_spec in Hn. tauto.
  - unfold spinTimeout. case_eq (timer s);
      [intros t Et | intros _; exact (conj Hsuf (conj Hnd Hw))].
    case_eq (nth_error (t_remainingNames t) (t_pickIndex t));
      [intros w En | intros _; exact (conj Hsuf (conj Hnd Hw))].
    specialize (Hw t w Et En). destruct Hsuf as [pre Hpre].
    split; [|split].
    + exists pre. cbn [order tempPair]. rewrite Hpre. symmetry. apply app_assoc.
    + cbn [tempPair]. apply NoDup_app; [exact Hnd | repeat constructor; intros [] |].
      intros x Hx [<-|[]]. apply Hw. rewrite Hpre. apply in_or_app. now right.
    + cbn [timer]. discriminate.
  - destruct (Nat.ltb_spec (List.length (tempPair s)) 2) as [Hlt|Hge].
    + rewrite (saveMonthOf_rejects c now s Hlt). exact (conj Hsuf (conj Hnd Hw)).
    + destruct (saveMonthOf_accepted c now s Hge) as (o & r & E & _).
      rewrite E. cbn [fst saved order tempPair timer].
      split; [exists o; now rewrite app_nil_r|]. split; [constructor|].
      unfold bufferInv in Hb. intros t w Et. change (timer s = Some t) in Et. rewrite Et in Hb. lia.
  - cbn. split; [exists []; reflexivity|]. split; [constructor|].
    intros t w _ _ [].
Qed.

Lemma mount_pendingInv n e o l h : pendingInv (mount n e o l h).
Proof.
  cbn. split; [exists o; now rewrite app_nil_r|]. split; [constructor|].
  discriminate.
Qed.

Lemma reachable_pendingInv (c : Copy) (s0 s : State) :
  bufferInv s0 -> pendingInv s0 -> Reachable c s0 s ->
  bufferInv s /\ pendingInv s.
Proof.
  intros Hb Hp R. induction R as [|a s R [IHb IHp] V]; [now split|].
  split; [now apply step_bufferInv | now apply step_pendingInv].
Qed.

(** X3: whatever was loaded and whatever the user and the timer do, the
    pending winners are the last names of the draw order, and they are
    distinct. *)
Theorem pending_winners_end_the_draw_order
    (c : Copy) (n e o : list string) (l : bool) (h : list MonthRecord.t)
    (s : State) :
  Reachable c (mount n e o l h) s ->
  (exists pre, order s = (pre ++ tempPair s)%list) /\ NoDup (tempPair s).
Proof.
  intros R.
  destruct (reachable_pendingInv c _ s (mount_bufferInv n e o l h)
              (mount_pendingInv n e o l h) R) as [_ (H1 & H2 & _)].
  now split.
Qed.

Lemma pending_winners_end_the_draw_order_witness :
  (exists pre,
      order (beforeFebruary part_000)
      = (pre ++ tempPair (beforeFebruary part_000))%list)
  /\ NoDup (tempPair (beforeFebruary part_000)).
Proof.
  apply (pending_winners_end_the_draw_order part_000
           (repeat "" TOTAL_MEMBERS) DEFAULT_EMOJIS [] false []).
  apply perform_reachable, februaryDraws_valid.
Defined.

Lemma step_rosterInv (c : Copy) (a : Action) (s : State) :
  rosterInv s -> rosterInv (step c a s).
Proof.
  intros [Hn He]. destruct a as [i v|rnd| |now|]; cbn [step].
  - unfold editName. destruct (locked s); split; auto.
    cbn. now rewrite setAt_length.
  - unfold spinWheel. destruct (_ || _ || _); split; auto.
  - unfold spinTimeout. destruct (timer s) as [t|]; [|now split].
    destruct (nth_error _ _); split; auto.
  - destruct (saveMonthOf_frame c now s) as (_ & _ & En & Ee & _).
    split; [now rewrite En | now rewrite Ee].
  - split; reflexivity.
Qed.

Lemma empty_rosterInv : rosterInv empty.
Proof. split; reflexivity. Qed.

Lemma reachable_rosterInv (c : Copy) (s : State) :
  Reachable c empty s -> rosterInv s.
Proof.
  intros R. induction R as [|a s R IH V]; [exact empty_rosterInv|].
  now apply step_rosterInv.
Qed.

(** X6: starting from the empty page, nothing the user or the timer does
    changes the number of roster slots or the avatars: there are always ten
    names, and the avatars are always the default ten. *)
Theorem roster_keeps_ten_default_avatars (c : Copy) (s : State) :
  Reachable c empty s ->
  List.length (names s) = 10%nat
  /\ emojis s = DEFAULT_EMOJIS
  /\ (forall i, (i < List.length (names s))%nat -> nth_error (emojis s) i <> None).
Proof.
  intros R. destruct (reachable_rosterInv c s R) as [Hn He].
  split; [exact Hn|]. split; [exact He|].
  intros i Hi. rewrite He. apply nth_error_Some. rewrite Hn in Hi. exact Hi.
Qed.

Lemma roster_keeps_ten_default_avatars_witness :
  List.length (names (afterFebruary part_000)) = 10%nat
  /\ emojis (afterFebruary part_000) = DEFAULT_EMOJIS.
Proof.
  destruct (roster_keeps_ten_default_avatars part_000 (afterFebruary part_000)
              (afterFebruary_reachable part_000)) as (H1 & H2 & _).
  split; assumption.
Defined.

(** ** The records of the history *)

Lemma glyphOf_defined (names emojis : list string) (w : string) :
  (List.length names <= List.length emojis)%nat ->
  Part000.glyphOf names emojis w <> None.
Proof.
  intros Hle. unfold Part000.glyphOf.
  destruct (JS.indexOf names w) as [k|] eqn:E; [|discriminate].
  apply indexOf_Some in E. destruct E as [Hk _].
  apply nth_error_Some.
  assert (k < List.length names)%nat by (apply nth_error_Some; congruence).
  lia.
Qed.

Lemma february_pair_two (names order : list string) (a b : string) :
  a <> b ->
  List.length (fst (Part000.february names order [a; b])) = 2%nat
  /\ NoDup (fst (Part000.february names order [a; b])).
Proof.
  intros Hab.
  assert (Hnd : forall x y : string, x <> y -> NoDup [x; y]).
  { intros x y Hxy. constructor; [intros [H|[]]; congruence|].
    constructor; [intros []|constructor]. }
  unfold Part000.february.
  destruct (Part000.dennisIndex names) as [i|]; [|split; [reflexivity | now apply Hnd]].
  set (d := nth i names "").
  destruct (JS.includes [a; b] d) eqn:Einc; cbn [fst].
  - apply includes_In in Einc. destruct Einc as [<-|[<-|[]]]; cbn [filter].
    + rewrite String.eqb_refl. cbn [negb].
      destruct (String.eqb_spec b a); [congruence|]. cbn [negb].
      split; [reflexivity | now apply Hnd].
    + rewrite String.eqb_refl. cbn [negb].
      destruct (String.eqb_spec a b); [congruence|]. cbn [negb].
      split; [reflexivity | apply Hnd; congruence].
  - apply includes_not_In in Einc. cbn [nth]. split; [reflexivity|].
    apply Hnd. intros E. apply Einc. rewrite E. cbn. auto.
Qed.

Lemma saveMonthOf_record (c : Copy) (now : string) (s : State) (a b : string) :
  tempPair s = [a; b] -> a <> b -> rosterInv s ->
  exists o r,
    saveMonthOf c now s = (saved s o r, [Confetti])
    /\ recordOk (List.length (history s)) r.
Proof.
  intros Hp Hab [Hn He].
  destruct c; cbn [saveMonthOf]; unfold Page.saveMonth, Part000.saveMonth;
    rewrite Hp; cbn [List.length Nat.ltb Nat.leb].
  - eexists _, _. split; [reflexivity|]. unfold recordOk.
    cbn [MonthRecord.month MonthRecord.pair MonthRecord.emojis JS.mapi
           JS.mapiFrom List.length].
    split; [reflexivity|]. split; [reflexivity|]. split.
    { constructor; [intros [H|[]]; congruence|].
      constructor; [intros []|constructor]. }
    split; [reflexivity|]. repeat constructor; discriminate.
  - destruct (february_pair_two (names s) (order s) a b Hab) as [Hl Hd].
    assert (Hfp : exists fp o,
               (if String.eqb (monthOf (history s)) "February"
                then Part000.february (names s) (order s) [a; b]
                else ([a; b], order s)) = (fp, o)
               /\ List.length fp = 2%nat /\ NoDup fp).
    { destruct (String.eqb _ _).
      - destruct (Part000.february (names s) (order s) [a; b]) as [fp o] eqn:E.
        exists fp, o. cbn [fst] in Hl, Hd. auto.
      - exists [a; b], (order s). split; [reflexivity|]. split; [reflexivity|].
        constructor; [intros [H|[]]; congruence|].
        constructor; [intros []|constructor]. }
    destruct Hfp as (fp & o & E & Hl2 & Hd2). rewrite E.
    eexists _, _. split; [reflexivity|]. unfold recordOk.
    cbn [MonthRecord.month MonthRecord.pair MonthRecord.emojis].
    split; [reflexivity|]. split; [exact Hl2|]. split; [exact Hd2|].
    split; [now rewrite length_map|].
    apply Forall_map, Forall_forall. intros w _.
    apply glyphOf_defined. rewrite Hn, He. unfold TOTAL_MEMBERS. cbn. lia.
Qed.

Lemma historyOk_snoc (h : list MonthRecord.t) (r : MonthRecord.t) :
  historyOk h -> recordOk (List.length h) r -> historyOk (h ++ [r]).
Proof.
  intros Hh Hr i x Hx.
  destruct (Nat.lt_ge_cases i (List.length h)) as [Hlt|Hge].
  - rewrite nth_error_app1 in Hx by exact Hlt. now apply Hh.
  - rewrite nth_error_app2 in Hx by exact Hge.
    destruct (i - List.length h)%nat as [|k] eqn:Ek; cbn in Hx.
    + injection Hx as <-. assert (i = List.length h) as -> by lia. exact Hr.
    + destruct k; discriminate Hx.
Qed.

Lemma step_history (c : Copy) (a : Action) (s : State) :
  history (step c a s) = history s
  \/ a = Reset
  \/ exists now o r,
       a = Save now
       /\ (2 <= List.length (tempPair s))%nat
       /\ saveMonthOf c now s = (saved s o r, [Confetti])
       /\ history (step c a s) = (history s ++ [r])%list.
Proof.
  destruct a as [i v|rnd| |now|]; cbn [step].
  - left. unfold editName. now destruct (locked s).
  - left. unfold spinWheel. now destruct (_ || _ || _).
  - left. unfold spinTimeout. destruct (timer s) as [t|]; [|reflexivity].
    now destruct (nth_error _ _).
  - destruct (Nat.ltb_spec (List.length (tempPair s)) 2) as [Hlt|Hge].
    + left. now rewrite (saveMonthOf_rejects c now s Hlt).
    + right. right. destruct (saveMonthOf_accepted c now s Hge) as (o & r & E & _).
      exists now, o, r. rewrite E. auto.
  - right. now left.
Qed.

Lemma step_historyOk (c : Copy) (a : Action) (s : State) :
  bufferInv s -> pendingInv s -> rosterInv s ->
  historyOk (history s) -> historyOk (history (step c a s)).
Proof.
  intros Hb (_ & Hnd & _) Hr Hh.
  destruct (step_history c a s) as [E|[->|(now & o & r & -> & Hge & E & Eh)]].
  - now rewrite E.
  - cbn. intros i x Hx. destruct i; discriminate Hx.
  - assert (Hlen : List.length (tempPair s) = 2%nat).
    { unfold bufferInv in Hb. destruct (timer s); lia. }
    destruct (tempPair s) as [|x [|y [|z t]]] eqn:Ep; try discriminate Hlen.
    assert (Hxy : x <> y).
    { intros <-. inversion Hnd as [|? ? Hin _]; subst. apply Hin. now left. }
    destruct (saveMonthOf_record c now s x y Ep Hxy Hr) as (o' & r' & E' & Hok).
    rewrite E in E'. injection E' as _ Er.
    apply app_inv_head in Er. injection Er as <-.
    rewrite Eh. now apply historyOk_snoc.
Qed.

Lemma reachable_historyOk (c : Copy) (s : State) :
  Reachable c empty s -> historyOk (history s).
Proof.
  intros R.
  assert (H : bufferInv s /\ pendingInv s /\ rosterInv s /\ historyOk (history s)).
  { induction R as [|a s R (Hb & Hp & Hr & Hh) V].
    - split; [apply (mount_bufferInv _ _ [] false [])|].
      split; [apply (mount_pendingInv _ _ [] false [])|].
      split; [exact empty_rosterInv|].
      intros i x Hx. destruct i; discriminate Hx.
    - split; [now apply step_bufferInv|].
      split; [now apply step_pendingInv|].
      split; [now apply step_rosterInv|].
      now apply step_historyOk. }
  apply H.
Qed.

(** X1: in every state reached from the empty page, in either copy and
    whatever the interleaving of spins, timeouts, saves and edits, the record
    at position [i] of the history carries the month [MONTHS[i mod 12]], one
    of the twelve names of the table. *)
Theorem months_follow_the_calendar
    (c : Copy) (s : State) (i : nat) (r : MonthRecord.t) :
  Reachable c empty s ->
  nth_error (history s) i = Some r ->
  MonthRecord.month r = nth (i mod 12) MONTHS ""
  /\ In (MonthRecord.month r) MONTHS.
Proof.
  intros R Hi. pose proof (proj1 (reachable_historyOk c s R i r Hi)) as E.
  split; [exact E|]. rewrite E. apply nth_In.
  change (List.length MONTHS) with 12%nat. apply Nat.mod_upper_bound. discriminate.
Qed.

(** X2: in every state reached from the empty page, in either copy, each
    record of the history names exactly two winners, distinct from one
    another, and carries exactly two avatars, none of them undefined. *)
Theorem records_hold_two_distinct_winners
    (c : Copy) (s : State) (r : MonthRecord.t) :
  Reachable c empty s ->
  In r (history s) ->
  List.length (MonthRecord.pair r) = 2%nat
  /\ NoDup (MonthRecord.pair r)
  /\ List.length (MonthRecord.emojis r) = 2%nat
  /\ Forall (fun g => g <> None) (MonthRecord.emojis r).
Proof.
  intros R Hin. apply In_nth_error in Hin. destruct Hin as [i Hi].
  exact (proj2 (reachable_historyOk c s R i r Hi)).
Qed.

Lemma months_follow_the_calendar_witness :
  match nth_error (history (afterFebruary part_000)) 1 with
  | Some r => MonthRecord.month r = "February"
  | None => False
  end.
Proof.
  destruct (nth_error (history (afterFebruary part_000)) 1) as [r|] eqn:E.
  - exact (proj1 (months_follow_the_calendar part_000 (afterFebruary part_000)
                    1 r (afterFebruary_reachable part_000) E)).
  - vm_compute in E. discriminate E.
Defined.

Lemma records_hold_two_distinct_winners_witness :
  Forall (fun r => List.length (MonthRecord.pair r) = 2%nat
                   /\ NoDup (MonthRecord.pair r))
    (history (afterFebruary part_000)).
Proof.
  apply Forall_forall. intros r Hin.
  destruct (records_hold_two_distinct_winners part_000 (afterFebruary part_000)
              r (afterFebruary_reachable part_000) Hin) as (H1 & H2 & _).
  split; assumption.
Defined.

(** ** The draw order of [page.tsx] as a ledger *)

Lemma step_ledger (a : Action) (s : State) :
  ledger s -> ledger (step page_tsx a s).
Proof.
  unfold ledger. intros H. destruct a as [i v|rnd| |now|]; cbn [step].
  - unfold editName. now destruct (locked s).
  - unfold spinWheel. now destruct (_ || _ || _).
  - unfold spinTimeout. destruct (timer s) as [t|]; [|exact H].
    destruct (nth_error _ _) as [w|]; [|exact H].
    cbn [order history tempPair]. rewrite H. symmetry. apply app_assoc.
  - cbn [saveMonthOf]. unfold Page.saveMonth.
    destruct (List.length (tempPair s) <? 2)%nat; [exact H|].
    cbn [fst saved order history tempPair].
    rewrite map_app, concat_app. cbn [map MonthRecord.pair List.concat].
    rewrite !app_nil_r. exact H.
  - reflexivity.
Qed.

Lemma concat_pairs_length (h : list MonthRecord.t) :
  (forall r, In r h -> List.length (MonthRecord.pair r) = 2%nat) ->
  List.length (List.concat (map MonthRecord.pair h)) = (List.length h * 2)%nat.
Proof.
  induction h as [|r h IH]; intros H; [reflexivity|].
  cbn [map List.concat List.length]. rewrite length_app, IH.
  - rewrite (H r (or_introl eq_refl)). lia.
  - intros x Hx. apply H. now right.
Qed.

(** X4: in [page.tsx], in every state reached from the empty page, also when
    a reset or a save falls between a spin and its timeout, the draw order is
    the pairs of the records in order followed by the pending winners; its
    length is therefore twice the number of records plus the number of pending
    winners. *)
Theorem page_draw_order_is_a_ledger (s : State) :
  Reachable page_tsx empty s ->
  order s = (List.concat (map MonthRecord.pair (history s)) ++ tempPair s)%list
  /\ counting s.
Proof.
  intros R.
  assert (L : ledger s).
  { induction R as [|a s R IH V]; [reflexivity | now apply step_ledger]. }
  split; [exact L|]. unfold ledger in L. unfold counting. rewrite L at 1.
  rewrite length_app, concat_pairs_length; [reflexivity|].
  intros r Hin. apply In_nth_error in Hin. destruct Hin as [i Hi].
  apply (reachable_historyOk page_tsx s R i r Hi).
Qed.

Lemma page_draw_order_is_a_ledger_witness :
  order (resetInFlight page_tsx)
  = (List.concat (map MonthRecord.pair (history (resetInFlight page_tsx)))
     ++ tempPair (resetInFlight page_tsx))%list
  /\ counting (resetInFlight page_tsx).
Proof.
  exact (page_draw_order_is_a_ledger (resetInFlight page_tsx)
           (proj1 (reset_in_flight page_tsx))).
Defined.

(** ** The lock, the edits and the history under single steps *)

(** X5: once the page is locked, no edit, spin, timeout or save unlocks it or
    changes a roster name; only a reset does. *)
Theorem lock_holds_until_reset (c : Copy) (a : Action) (s : State) :
  a <> Reset ->
  locked s = true ->
  locked (step c a s) = true /\ names (step c a s) = names s.
Proof.
  intros Ha Hl. destruct a as [i v|rnd| |now|]; cbn [step].
  - unfold editName. rewrite Hl. now split.
  - unfold spinWheel. destruct (_ || _ || _); now split.
  - unfold spinTimeout. destruct (timer s) as [t|]; [|now split].
    destruct (nth_error _ _); now split.
  - destruct (saveMonthOf_frame c now s) as (_ & _ & En & _).
    split; [|exact En].
    destruct (Nat.ltb_spec (List.length (tempPair s)) 2) as [Hlt|Hge].
    + now rewrite (saveMonthOf_rejects c now s Hlt).
    + destruct (saveMonthOf_accepted c now s Hge) as (o & r & E & _).
      now rewrite E.
  - congruence.
Qed.

Lemma lock_holds_until_reset_witness :
  locked (step page_tsx (Edit 0 "Zed") (firstDrawn page_tsx)) = true
  /\ names (step page_tsx (Edit 0 "Zed") (firstDrawn page_tsx))
     = names (firstDrawn page_tsx).
Proof.
  apply lock_holds_until_reset; [discriminate | vm_compute; reflexivity].
Defined.

Lemma setAt_same {A : Type} (i : nat) (v : A) (l : list A) :
  (i < List.length l)%nat -> nth_error (JS.setAt i v l) i = Some v.
Proof.
  revert i. induction l as [|x l IH]; intros [|i] Hi; cbn in *; try lia.
  - reflexivity.
  - apply IH. lia.
Qed.

Lemma setAt_other {A : Type} (i j : nat) (v : A) (l : list A) :
  j <> i -> nth_error (JS.setAt i v l) j = nth_error l j.
Proof.
  revert i j. induction l as [|x l IH]; intros [|i] [|j] Hij; cbn;
    try reflexivity; try congruence.
  apply IH. congruence.
Qed.

Lemma setAt_setAt {A : Type} (i : nat) (v w : A) (l : list A) :
  JS.setAt i w (JS.setAt i v l) = JS.setAt i w l.
Proof.
  revert i. induction l as [|x l IH]; intros [|i]; cbn; try reflexivity.
  now rewrite IH.
Qed.

Lemma setAt_comm {A : Type} (i j : nat) (v w : A) (l : list A) :
  j <> i -> JS.setAt j w (JS.setAt i v l) = JS.setAt i v (JS.setAt j w l).
Proof.
  revert i j. induction l as [|x l IH]; intros [|i] [|j] Hij; cbn;
    try reflexivity; try congruence.
  rewrite IH; [reflexivity | congruence].
Qed.

Lemma setAt_In {A : Type} (i : nat) (v n : A) (l : list A) :
  (i < List.length l)%nat ->
  In n (JS.setAt i v l)
  <-> n = v \/ exists j, j <> i /\ nth_error l j = Some n.
Proof.
  intros Hi. split.
  - intros Hin. apply In_nth_error in Hin. destruct Hin as [j Hj].
    destruct (Nat.eq_dec j i) as [->|Hne].
    + rewrite (setAt_same i v l Hi) in Hj. left. congruence.
    + rewrite (setAt_other i j v l Hne) in Hj. right. now exists j.
  - intros [->|(j & Hne & Hj)].
    + eapply nth_error_In. now apply setAt_same.
    + eapply nth_error_In. rewrite setAt_other; eassumption.
Qed.

(** X16: on an unlocked page, typing [v] into the input of slot [i] puts [v]
    at slot [i], leaves every other slot and the number of slots as they
    were, and touches nothing else of the state: avatars, draw order, lock,
    history, pending pair, spin flag, current pick and timer stay.  Typing
    again into the same slot leaves only the last value, and edits of two
    different slots give the same state in either order.  After the edit the
    wheel shows [v] when its trimmed form is not blank and it is not in the
    draw order, and of the other slots the names it showed before.  A spin in
    flight is not affected: its timer ends with the same draw order, pending
    pair and current pick as without the edit, its winner being read from the
    list captured at the start of the spin. *)
Theorem edit_replaces_one_slot (i : nat) (v : string) (s : State) :
  locked s = false ->
  (i < List.length (names s))%nat ->
  let s' := editName i v s in
  nth_error (names s') i = Some v
  /\ (forall j, j <> i -> nth_error (names s') j = nth_error (names s) j)
  /\ List.length (names s') = List.length (names s)
  /\ emojis s' = emojis s /\ order s' = order s /\ locked s' = false
  /\ history s' = history s /\ tempPair s' = tempPair s
  /\ spinning s' = spinning s /\ currentPick s' = currentPick s
  /\ timer s' = timer s
  /\ (forall w, editName i w s' = editName i w s)
  /\ (forall j w, j <> i -> editName j w s' = editName i v (editName j w s))
  /\ (forall n, In n (remainingNames s')
                <-> JS.trim n <> "" /\ ~ In n (order s)
                    /\ (n = v \/ exists j, j <> i
                                          /\ nth_error (names s) j = Some n))
  /\ (order (spinTimeout s') = order (spinTimeout s)
      /\ tempPair (spinTimeout s') = tempPair (spinTimeout s)
      /\ currentPick (spinTimeout s') = currentPick (spinTimeout s)
      /\ names (spinTimeout s') = JS.setAt i v (names (spinTimeout s))).
Proof.
  intros Hl Hi.
  assert (E : editName i v s
              = {| names := JS.setAt i v (names s); emojis := emojis s;
                   order := order s; locked := false; history := history s;
                   spinning := spinning s; currentPick := currentPick s;
                   tempPair := tempPair s; timer := timer s |}).
  { unfold editName. rewrite Hl. reflexivity. }
  cbv zeta. rewrite E. clear E. cbn [names emojis order locked history
    spinning currentPick tempPair timer].
  split; [now apply setAt_same|]. split; [intros j Hj; now apply setAt_other|].
  split; [apply setAt_length|].
  do 8 (split; [reflexivity|]).
  split; [|split; [|split]].
  - intros w. unfold editName. cbn [locked names emojis order history spinning
      currentPick tempPair timer]. rewrite Hl, setAt_setAt. reflexivity.
  - intros j w Hj. unfold editName. cbn [locked names emojis order history
      spinning currentPick tempPair timer]. rewrite Hl.
    cbn [locked names emojis order history spinning currentPick tempPair
           timer].
    rewrite (setAt_comm i j v w (names s) Hj). reflexivity.
  - intros n. rewrite remainingNames_spec. cbn [names order].
    rewrite (setAt_In i v n (names s) Hi). tauto.
  - unfold spinTimeout. cbn [timer]. destruct (timer s) as [t|];
      [destruct (nth_error (t_remainingNames t) (t_pickIndex t))|];
      cbn [names order tempPair currentPick]; repeat split; reflexivity.
Qed.

Lemma edit_replaces_one_slot_witness :
  nth_error (names (editName 3 "Dora" (seated page_tsx))) 3 = Some "Dora"
  /\ List.length (names (editName 3 "Dora" (seated page_tsx)))
     = List.length (names (seated page_tsx))
  /\ timer (editName 3 "Dora" (seated page_tsx)) = timer (seated page_tsx).
Proof.
  assert (Hl : locked (seated page_tsx) = false) by (vm_compute; reflexivity).
  assert (Hi : (3 < List.length (names (seated page_tsx)))%nat)
    by (vm_compute; lia).
  destruct (edit_replaces_one_slot 3 "Dora" (seated page_tsx) Hl Hi)
    as (H1 & _ & H3 & _ & _ & _ & _ & _ & _ & _ & H11 & _).
  repeat split; assumption.
Defined.

(** X19: no handler other than the reset removes or alters a record: a step
    leaves the history as it is or appends one record to it. *)
Theorem history_only_grows (c : Copy) (a : Action) (s : State) :
  a <> Reset ->
  exists tail,
    history (step c a s) = (history s ++ tail)%list
    /\ (List.length tail <= 1)%nat.
Proof.
  intros Ha.
  destruct (step_history c a s) as [E|[E|(now & o & r & _ & _ & _ & E)]].
  - exists []. rewrite E, app_nil_r. split; [reflexivity | cbn; lia].
  - contradiction.
  - exists [r]. split; [exact E | cbn; lia].
Qed.

Lemma history_only_grows_witness :
  exists tail,
    history (step part_000 (Save stamp) (beforeFebruary part_000))
    = (history (beforeFebruary part_000) ++ tail)%list
    /\ (List.length tail <= 1)%nat.
Proof.
  apply history_only_grows. discriminate.
Defined.

(** X8: a save straight after a save is always rejected: whatever the first
    one did, the second changes nothing and raises the alert. *)
Theorem second_save_is_rejected (c : Copy) (n1 n2 : string) (s : State) :
  saveMonthOf c n2 (fst (saveMonthOf c n1 s))
  = (fst (saveMonthOf c n1 s), [Alert NEED_TWO]).
Proof.
  apply saveMonthOf_rejects.
  destruct (Nat.ltb_spec (List.length (tempPair s)) 2) as [Hlt|Hge].
  - now rewrite (saveMonthOf_rejects c n1 s Hlt).
  - destruct (saveMonthOf_accepted c n1 s Hge) as (o & r & E & _).
    rewrite E. cbn. lia.
Qed.

(** ** Spins in flight and resets *)

Lemma reachable_buffer (c : Copy) (n e o : list string) (l : bool)
    (h : list MonthRecord.t) (s : State) :
  Reachable c (mount n e o l h) s -> bufferInv s.
Proof. apply reachable_bufferInv, mount_bufferInv. Qed.

(** X17: while a spin is in flight, on any page reached from a mount, a
    second spin does nothing, a save is rejected with the alert, the timeout
    of the spin is still pending and at most one winner is waiting. *)
Theorem spin_in_flight_blocks
    (c : Copy) (n e o : list string) (l : bool) (h : list MonthRecord.t)
    (s : State) :
  Reachable c (mount n e o l h) s ->
  spinning s = true ->
  (forall rnd, spinWheel rnd s = s)
  /\ (forall now, saveMonthOf c now s = (s, [Alert NEED_TWO]))
  /\ (exists t, timer s = Some t)
  /\ (List.length (tempPair s) <= 1)%nat.
Proof.
  intros R Hs. pose proof (reachable_buffer c n e o l h s R) as Hb.
  unfold bufferInv in Hb. destruct (timer s) as [t|] eqn:Et.
  - destruct Hb as [_ Hl]. split; [|split; [|split]].
    + intros rnd. unfold spinWheel. now rewrite Hs.
    + intros now. apply saveMonthOf_rejects. lia.
    + now exists t.
    + exact Hl.
  - destruct Hb as [Hf _]. congruence.
Qed.

Lemma midSpin_reachable (c : Copy) : Reachable c empty (midSpin c).
Proof.
  apply (reachable_trans _ _ (seated c)); [apply seated_reachable|].
  apply run_reachable. apply Forall_cons; [apply zero_in_unit | apply Forall_nil].
Qed.

Lemma spin_in_flight_blocks_witness :
  spinWheel (1 # 2) (midSpin part_000) = midSpin part_000
  /\ saveMonthOf part_000 stamp (midSpin part_000)
     = (midSpin part_000, [Alert NEED_TWO]).
Proof.
  assert (Hs : spinning (midSpin part_000) = true) by (vm_compute; reflexivity).
  destruct (spin_in_flight_blocks part_000 (repeat "" TOTAL_MEMBERS)
              DEFAULT_EMOJIS [] false [] (midSpin part_000)
              (midSpin_reachable part_000) Hs) as (H1 & H2 & _).
  split; [apply H1 | apply H2].
Defined.

Lemma empty_has_no_candidate : remainingNames empty = [].
Proof. reflexivity. Qed.

(** X7: on any page reached from a mount, a reset pressed while no spin is
    in flight gives exactly the canonical empty page; on that page every spin
    and every save is refused. *)
Theorem reset_restores_the_empty_page
    (c : Copy) (n e o : list string) (l : bool) (h : list MonthRecord.t)
    (s : State) :
  Reachable c (mount n e o l h) s ->
  spinning s = false ->
  resetChama s = empty
  /\ (forall rnd, draw rnd (resetChama s) = resetChama s)
  /\ (forall now, saveMonthOf c now (resetChama s)
                  = (resetChama s, [Alert NEED_TWO])).
Proof.
  intros R Hs. pose proof (reachable_buffer c n e o l h s R) as Hb.
  assert (Ht : timer s = None).
  { unfold bufferInv in Hb. destruct (timer s); [|reflexivity].
    destruct Hb. congruence. }
  assert (E : resetChama s = empty).
  { unfold resetChama, empty, mount. now rewrite Hs, Ht. }
  rewrite E. split; [reflexivity|]. split.
  - intros rnd. apply draw_rejected_when_exhausted; reflexivity.
  - intros now. apply saveMonthOf_rejects. cbn. lia.
Qed.

Lemma reset_restores_the_empty_page_witness :
  resetChama (afterFebruary part_000) = empty.
Proof.
  assert (Hs : spinning (afterFebruary part_000) = false)
    by (vm_compute; reflexivity).
  destruct (reset_restores_the_empty_page part_000 (repeat "" TOTAL_MEMBERS)
              DEFAULT_EMOJIS [] false [] (afterFebruary part_000)
              (afterFebruary_reachable part_000) Hs) as [H _].
  exact H.
Defined.

(** ** What a draw does to the wheel *)

Lemma eligible_snoc (o : list string) (w n : string) :
  eligible (o ++ [w]) n = eligible o n && negb (String.eqb n w).
Proof.
  unfold eligible, JS.includes. rewrite existsb_app. cbn [existsb].
  rewrite orb_false_r, negb_orb, andb_assoc. reflexivity.
Qed.

Lemma filter_snoc_order (o names : list string) (w : string) :
  filter (eligible (o ++ [w])) names
  = filter (fun n => negb (String.eqb n w)) (filter (eligible o) names).
Proof.
  induction names as [|n l IH]; [reflexivity|].
  cbn [filter]. rewrite eligible_snoc.
  destruct (eligible o n); cbn [andb filter]; [|exact IH].
  destruct (negb (String.eqb n w)); now rewrite IH.
Qed.

Lemma filter_drops_member {A : Type} (p : A -> bool) (l : list A) (x : A) :
  In x l -> p x = false ->
  (List.length (filter p l) < List.length l)%nat.
Proof.
  induction l as [|y l IH]; intros Hin Hp; [contradiction|].
  pose proof (filter_length_le p l) as Hle.
  cbn [filter]. destruct Hin as [->|Hin].
  - rewrite Hp. cbn. lia.
  - specialize (IH Hin Hp). destruct (p y); cbn; lia.
Qed.

(** X18: an accepted draw takes off the wheel exactly the roster slots that
    hold the winner's name, be it one slot or several, so the list of
    candidates gets strictly shorter. *)
Theorem draw_takes_the_winner_off_the_wheel (rnd : Q) (s : State) :
  spinning s = false ->
  remainingNames s <> [] ->
  (List.length (tempPair s) < 2)%nat ->
  unit_interval rnd ->
  exists w,
    In w (remainingNames s)
    /\ remainingNames (draw rnd s)
       = filter (fun n => negb (String.eqb n w)) (remainingNames s)
    /\ ~ In w (remainingNames (draw rnd s))
    /\ (List.length (remainingNames (draw rnd s))
        < List.length (remainingNames s))%nat.
Proof.
  intros Hs Hr Ht Hrnd.
  assert (Hc : (0 < List.length (remainingNames s))%nat).
  { destruct (remainingNames s); [congruence | cbn; lia]. }
  pose proof (pickIndex_lt rnd _ Hrnd Hc) as Hidx.
  destruct (nth_error (remainingNames s)
              (pickIndex rnd (List.length (remainingNames s)))) as [w|] eqn:E.
  2:{ apply nth_error_None in E. lia. }
  exists w. pose proof (nth_error_In _ _ E) as Hin.
  assert (Ed : remainingNames (draw rnd s)
               = filter (fun n => negb (String.eqb n w)) (remainingNames s)).
  { unfold draw. rewrite (spinWheel_accepted rnd s Hs Hr Ht).
    unfold spinTimeout. cbn [timer t_remainingNames t_pickIndex]. rewrite E.
    unfold remainingNames at 1. cbn [order names]. apply filter_snoc_order. }
  split; [exact Hin|]. split; [exact Ed|]. rewrite Ed. split.
  - intros H. apply filter_In in H. destruct H as [_ H].
    rewrite String.eqb_refl in H. discriminate H.
  - apply (filter_drops_member _ _ w Hin). now rewrite String.eqb_refl.
Qed.

Lemma draw_takes_the_winner_off_the_wheel_witness :
  (List.length (remainingNames (draw 0 (seated page_tsx)))
   < List.length (remainingNames (seated page_tsx)))%nat.
Proof.
  assert (Hs : spinning (seated page_tsx) = false) by (vm_compute; reflexivity).
  assert (Hr : remainingNames (seated page_tsx) <> [])
    by (vm_compute; discriminate).
  assert (Ht : (List.length (tempPair (seated page_tsx)) < 2)%nat)
    by (vm_compute; lia).
  destruct (draw_takes_the_winner_off_the_wheel 0 (seated page_tsx)
              Hs Hr Ht zero_in_unit) as (w & _ & _ & _ & H).
  exact H.
Defined.

(** ** After a February save in [part_000] *)

(** X15: in [part_000], on any page reached from a mount, an accepted save
    under the February label with a dennis or denno in the roster leaves that
    name in the draw order, so that it is no candidate of a later draw; when
    the name was not one of the two pending winners [a, b], the first of them
    is no longer in the draw order afterwards. *)
Theorem february_seats_the_name
    (n e o : list string) (l : bool) (h : list MonthRecord.t)
    (now : string) (s : State) (a b d : string) (i : nat) :
  Reachable part_000 (mount n e o l h) s ->
  tempPair s = [a; b] ->
  (List.length (history s) mod 12 = 1)%nat ->
  firstDennis (names s) i d ->
  let s' := fst (Part000.saveMonth now s) in
  In d (order s')
  /\ ~ In d (remainingNames s')
  /\ (~ In d [a; b] -> ~ In a (order s')).
Proof.
  intros R Hp Hm Hd s'.
  destruct (reachable_pendingInv part_000 _ s (mount_bufferInv n e o l h)
              (mount_pendingInv n e o l h) R) as [_ ([pre Hpre] & Hnd & _)].
  rewrite Hp in Hpre, Hnd.
  assert (Hab : a <> b).
  { intros <-. inversion Hnd as [|? ? Hin _]; subst. apply Hin. now left. }
  destruct (dennisIndex_first _ _ _ Hd) as [Hi Hnth].
  assert (Eo : order s'
               = if JS.includes [a; b] d then order s
                 else (filter (fun x => negb (String.eqb x a)) (order s)
                       ++ [d; b])%list).
  { unfold s', Part000.saveMonth. rewrite Hp. cbn [List.length Nat.ltb Nat.leb].
    rewrite (monthOf_february _ Hm). cbn [String.eqb Ascii.eqb Bool.eqb].
    unfold Part000.february. rewrite Hi, Hnth.
    destruct (JS.includes [a; b] d); reflexivity. }
  assert (Hin : In d (order s')).
  { rewrite Eo. destruct (JS.includes [a; b] d) eqn:Einc.
    - apply includes_In in Einc. rewrite Hpre. apply in_or_app. now right.
    - apply in_or_app. right. now left. }
  split; [exact Hin|]. split.
  - intros Hr. apply remainingNames_spec in Hr. tauto.
  - intros Hnot. rewrite Eo.
    rewrite (proj2 (includes_not_In [a; b] d) Hnot).
    intros H. apply in_app_or in H. destruct H as [H|[H|[H|[]]]].
    + apply filter_In in H. destruct H as [_ H].
      rewrite String.eqb_refl in H. discriminate H.
    + apply Hnot. left. now symmetry.
    + congruence.
Qed.

Lemma february_seats_the_name_witness :
  In "Denno" (order (fst (Part000.saveMonth stamp (beforeFebruary part_000))))
  /\ ~ In "Ann"
         (order (fst (Part000.saveMonth stamp (beforeFebruary part_000)))).
Proof.
  assert (Hp : tempPair (beforeFebruary part_000) = ["Ann"; "Bob"])
    by (vm_compute; reflexivity).
  assert (Hm : (List.length (history (beforeFebruary part_000)) mod 12 = 1)%nat)
    by (vm_compute; reflexivity).
  assert (Hn : names (beforeFebruary part_000) = rosterDenno)
    by (vm_compute; reflexivity).
  assert (Hd : firstDennis (names (beforeFebruary part_000)) 4 "Denno").
  { rewrite Hn. split; [reflexivity|]. split; [vm_compute; reflexivity|].
    intros j x Hj Hjx.
    destruct j as [|[|[|[|j]]]]; [| | | |lia]; injection Hjx as <-;
      vm_compute; reflexivity. }
  assert (R : Reachable part_000 (mount (repeat "" TOTAL_MEMBERS)
                                    DEFAULT_EMOJIS [] false [])
                (beforeFebruary part_000))
    by (apply perform_reachable, februaryDraws_valid).
  destruct (february_seats_the_name (repeat "" TOTAL_MEMBERS) DEFAULT_EMOJIS []
              false [] stamp (beforeFebruary part_000) "Ann" "Bob" "Denno" 4
              R Hp Hm Hd) as (H1 & _ & H3).
  split; [exact H1|]. apply H3.
  intros [H|[H|[]]]; discriminate H.
Defined.

(** * Further properties of the store *)

Section StoreProperties.

Variable Date_getTime : Store.JSON -> option Z.
Variable toISOString : Z -> string.

Lemma load_cases (now : Z) (st : Store.Storage) :
  (Store.loadStoredData Date_getTime toISOString true now st
   = (Store.defaults toISOString now, st)
   /\ (st = None \/ st = Some Store.Empty \/ st = Some Store.Garbage
       \/ st = Some (Store.Doc Store.JNull)
       \/ exists parsed,
            st = Some (Store.Doc parsed) /\ parsed <> Store.JNull
            /\ Store.raises Date_getTime (Store.prop parsed "savedAt") = true))
  \/ (exists parsed,
        st = Some (Store.Doc parsed) /\ parsed <> Store.JNull
        /\ Store.raises Date_getTime (Store.prop parsed "savedAt") = false
        /\ Store.stale Date_getTime now (Store.prop parsed "savedAt") = true
        /\ Store.loadStoredData Date_getTime toISOString true now st
           = (Store.defaults toISOString now, None))
  \/ (exists parsed,
        st = Some (Store.Doc parsed) /\ parsed <> Store.JNull
        /\ Store.raises Date_getTime (Store.prop parsed "savedAt") = false
        /\ Store.stale Date_getTime now (Store.prop parsed "savedAt") = false
        /\ snd (Store.loadStoredData Date_getTime toISOString true now st) = st).
Proof.
  unfold Store.loadStoredData, Store.tryLoad. cbn [negb].
  destruct st as [[| |parsed]|]; auto 10.
  destruct parsed; [left; auto 10| | | | |];
    (destruct (Store.raises Date_getTime (Store.prop _ "savedAt")) eqn:Er;
     [left; split; [reflexivity|]; do 4 right; eexists;
      split; [reflexivity|]; split; [discriminate | exact Er]
     |destruct (Store.stale Date_getTime now (Store.prop _ "savedAt")) eqn:Es;
      [right; left | right; right]; eexists;
      (split; [reflexivity|]); (split; [discriminate|]);
      (split; [exact Er|]); (split; [exact Es | reflexivity])]).
Qed.

(** X10: loading never writes to the storage; the only change it can make is
    the removal of a blob whose [savedAt] is stale.  With no item under the
    key, an empty or unparsable text, or the text of [null], it returns the
    defaults and leaves the storage as it found it; outside a browser it
    returns the defaults without looking at the storage. *)
Theorem load_only_ever_deletes (window : bool) (now : Z) (st : Store.Storage) :
  let r := Store.loadStoredData Date_getTime toISOString window now st in
  (snd r = st \/ (snd r = None /\ fst r = Store.defaults toISOString now))
  /\ (window = false \/ st = None \/ st = Some Store.Empty
      \/ st = Some Store.Garbage \/ st = Some (Store.Doc Store.JNull) ->
      r = (Store.defaults toISOString now, st)).
Proof.
  cbv zeta. destruct window.
  - destruct (load_cases now st)
      as [[E H]|[(p & Hst & Hp & _ & Hs & E)|(p & Hst & Hp & _ & Hs & E)]].
    + rewrite E. split; [now left|]. intros _. reflexivity.
    + rewrite E. split; [right; now split|].
      intros [H|[H|[H|[H|H]]]]; try discriminate H; rewrite Hst in H;
        try discriminate H. injection H as H. contradiction.
    + split; [now left|].
      intros [H|[H|[H|[H|H]]]]; try discriminate H; rewrite Hst in H;
        try discriminate H. injection H as H. contradiction.
  - unfold Store.loadStoredData. cbn [negb]. split; [now left|].
    intros _. reflexivity.
Qed.

(** X9: loading twice at the same instant is the same as loading once: the
    second load finds the storage as the first one left it and returns the
    same snapshot. *)
Theorem load_twice_is_load_once (window : bool) (now : Z) (st : Store.Storage) :
  Store.loadStoredData Date_getTime toISOString window now
    (snd (Store.loadStoredData Date_getTime toISOString window now st))
  = Store.loadStoredData Date_getTime toISOString window now st.
Proof.
  destruct window; [|reflexivity].
  destruct (load_cases now st)
    as [[E H]|[(p & Hst & Hp & _ & Hs & E)|(p & Hst & Hp & _ & Hs & E)]].
  - rewrite E. cbn [snd]. exact E.
  - rewrite E. reflexivity.
  - rewrite E. reflexivity.
Qed.

(** X11: a blob whose [savedAt] is missing or falsy (absent, [null], [false],
    0 or the empty text), or is a value that [new Date] takes without
    throwing and that is no valid date, never expires: whatever the current
    time, the load leaves it in the storage and reads its fields.  The
    values that make [new Date] throw are the other case of a stamp without a
    time value: with one of them the load returns the defaults, whatever the
    current time, and leaves the blob in the storage as well. *)
Theorem blob_without_date_never_expires
    (now : Z) (parsed : Store.JSON) :
  parsed <> Store.JNull ->
  (Store.truthy (Store.prop parsed "savedAt") = false
   \/ exists sv, Store.prop parsed "savedAt" = Some sv
                 /\ Date_getTime sv = None) ->
  let r := Store.loadStoredData Date_getTime toISOString true now
             (Some (Store.Doc parsed)) in
  snd r = Some (Store.Doc parsed)
  /\ ((forall sv, Store.prop parsed "savedAt" = Some sv ->
         Store.truthy (Some sv) = true -> Store.toStringThrows sv = false) ->
      fst r
      = {| Store.names :=
             Store.arrayOr (Store.prop parsed "names") Store.defaultNames;
           Store.emojis :=
             Store.arrayOr (Store.prop parsed "emojis") Store.defaultEmojis;
           Store.order := Store.arrayOr (Store.prop parsed "order") [];
           Store.locked := Store.truthy (Store.prop parsed "locked");
           Store.history := Store.arrayOr (Store.prop parsed "history") [];
           Store.savedAt :=
             Store.savedAtOr toISOString now (Store.prop parsed "savedAt") |})
  /\ ((exists sv, Store.prop parsed "savedAt" = Some sv
                  /\ Store.truthy (Some sv) = true
                  /\ Store.toStringThrows sv = true) ->
      fst r = Store.defaults toISOString now).
Proof.
  intros Hnull Hd r.
  assert (Hs : Store.stale Date_getTime now (Store.prop parsed "savedAt") = false).
  { unfold Store.stale. destruct Hd as [Hf|(sv & Hp & Hn)].
    - destruct (Store.prop parsed "savedAt"); [|reflexivity].
      now rewrite Hf.
    - rewrite Hp. unfold Store.expired. rewrite Hn. apply andb_false_r. }
  assert (Hx : Store.raises Date_getTime (Store.prop parsed "savedAt")
               = match Store.prop parsed "savedAt" with
                 | Some sv => Store.truthy (Some sv) && Store.toStringThrows sv
                 | None => false
                 end).
  { unfold Store.raises. destruct Hd as [Hf|(sv & Hp & Hn)].
    - destruct (Store.prop parsed "savedAt"); [|reflexivity].
      now rewrite Hf.
    - rewrite Hp, Hn. reflexivity. }
  destruct (Store.raises Date_getTime (Store.prop parsed "savedAt")) eqn:Er;
    unfold r, Store.loadStoredData, Store.tryLoad; cbn [negb].
  - assert (Hthrows : exists sv, Store.prop parsed "savedAt" = Some sv
                        /\ Store.truthy (Some sv) = true
                        /\ Store.toStringThrows sv = true).
    { destruct (Store.prop parsed "savedAt") as [sv|]; [|discriminate].
      symmetry in Hx. apply andb_true_iff in Hx. exists sv. tauto. }
    destruct parsed; try congruence; rewrite Er; cbn [fst snd];
      (split; [reflexivity|]); (split; [|reflexivity]);
      intros Hplain; destruct Hthrows as (sv & Hp & Ht & Hth);
      rewrite (Hplain sv Hp Ht) in Hth; discriminate.
  - assert (Hplain : forall sv, Store.prop parsed "savedAt" = Some sv ->
                       Store.truthy (Some sv) = true ->
                       Store.toStringThrows sv = true -> False).
    { intros sv Hp Ht Hth. rewrite Hp, Ht, Hth in Hx. discriminate. }
    destruct parsed; try congruence; rewrite Er, Hs; cbn [fst snd];
      (split; [reflexivity|]); (split; [reflexivity|]);
      intros (sv & Hp & Ht & Hth); exfalso; exact (Hplain sv Hp Ht Hth).
Qed.

(** X12: what the persist effect writes is what a later load reads.  When
    [Date] reads the stamp of the write back as the instant of the write, and
    the load comes within seven days, the snapshot loaded has the names,
    avatars, draw order, lock and history of the state that was persisted and
    the stamp of the write, and the blob stays in the storage; the pending
    pair is no part of it.  A load more than seven days later returns the
    defaults and removes the blob. *)
Theorem persist_then_load (t0 now : Z) (s : State) :
  Date_getTime (Store.JStr (toISOString t0)) = Some t0 ->
  toISOString t0 <> "" ->
  ((now - t0 <= 7 * (1000 * 60 * 60 * 24))%Z ->
     Store.loadStoredData Date_getTime toISOString true now
       (Persist.persist toISOString t0 s)
     = (Persist.snapshot (toISOString t0) s,
        Persist.persist toISOString t0 s))
  /\ ((now - t0 > 7 * (1000 * 60 * 60 * 24))%Z ->
       Store.loadStoredData Date_getTime toISOString true now
         (Persist.persist toISOString t0 s)
       = (Store.defaults toISOString now, None)).
Proof.
  intros Hd Hne.
  assert (Htr : Store.truthy (Some (Store.JStr (toISOString t0))) = true).
  { cbn. apply negb_true_iff. now apply String.eqb_neq. }
  pose proof (expired_iff Date_getTime now t0 _ Hd) as Hexp.
  change (EXPIRY_DAYS * Store.MS_PER_DAY)%Z
    with (7 * (1000 * 60 * 60 * 24))%Z in Hexp.
  assert (Hst : Store.stale Date_getTime now
                  (Store.prop (Persist.payload (toISOString t0) s) "savedAt")
                = Store.expired Date_getTime now (Store.JStr (toISOString t0))).
  { cbn [Persist.payload Store.prop Store.assoc String.eqb Ascii.eqb Bool.eqb].
    unfold Store.stale. now rewrite Htr. }
  assert (Hr : Store.raises Date_getTime
                 (Store.prop (Persist.payload (toISOString t0) s) "savedAt")
               = false).
  { cbn [Persist.payload Store.prop Store.assoc String.eqb Ascii.eqb Bool.eqb].
    exact (raises_timed Date_getTime _ t0 Hd). }
  unfold Persist.persist, Store.loadStoredData, Store.tryLoad. cbn [negb].
  split; intros Hage.
  - assert (Hf : Store.expired Date_getTime now (Store.JStr (toISOString t0))
                 = false).
    { apply not_true_iff_false. rewrite Hexp. lia. }
    unfold Persist.payload at 1. rewrite Hr, Hst, Hf.
    cbn [Persist.payload Store.prop Store.assoc String.eqb Ascii.eqb Bool.eqb
           Store.arrayOr Store.truthy Store.savedAtOr].
    change (negb (String.eqb (toISOString t0) ""))
      with (Store.truthy (Some (Store.JStr (toISOString t0)))).
    rewrite Htr. reflexivity.
  - assert (Ht : Store.expired Date_getTime now (Store.JStr (toISOString t0))
                 = true) by (apply Hexp; exact Hage).
    unfold Persist.payload at 1. rewrite Hr, Hst, Ht. reflexivity.
Qed.

End StoreProperties.

Lemma blob_without_date_never_expires_witness :
  snd (Store.loadStoredData Store.numericDate Store.sampleISO true
         (1000 * Store.MS_PER_DAY) (Some (Store.Doc Persist.undated)))
  = Some (Store.Doc Persist.undated)
  /\ Store.loadStoredData Store.numericDate Store.sampleISO true
       (1000 * Store.MS_PER_DAY) (Some (Store.Doc Store.throwingBlob))
     = (Store.defaults Store.sampleISO (1000 * Store.MS_PER_DAY),
        Some (Store.Doc Store.throwingBlob)).
Proof.
  split.
  - refine (proj1 (blob_without_date_never_expires Store.numericDate
                     Store.sampleISO (1000 * Store.MS_PER_DAY) Persist.undated
                     _ _)).
    + discriminate.
    + left. reflexivity.
  - assert (Hn : Store.throwingBlob <> Store.JNull) by discriminate.
    assert (Hd : Store.truthy (Store.prop Store.throwingBlob "savedAt") = false
                 \/ exists sv, Store.prop Store.throwingBlob "savedAt" = Some sv
                               /\ Store.numericDate sv = None).
    { right. eexists. split; reflexivity. }
    destruct (blob_without_date_never_expires Store.numericDate
                Store.sampleISO (1000 * Store.MS_PER_DAY) Store.throwingBlob
                Hn Hd) as (H1 & _ & H3).
    apply injective_projections; cbn [fst snd].
    + apply H3. eexists. repeat split; reflexivity.
    + exact H1.
Defined.

Lemma persist_then_load_witness :
  Store.loadStoredData Persist.stampDate Persist.stampISO true
    (Persist.stampTime + Store.MS_PER_DAY)
    (Persist.persist Persist.stampISO Persist.stampTime (afterFebruary part_000))
  = (Persist.snapshot Persist.stampText (afterFebruary part_000),
     Persist.persist Persist.stampISO Persist.stampTime (afterFebruary part_000)).
Proof.
  assert (Hd : Persist.stampDate
                 (Store.JStr (Persist.stampISO Persist.stampTime))
               = Some Persist.stampTime) by reflexivity.
  assert (Hne : Persist.stampISO Persist.stampTime <> "") by discriminate.
  apply (proj1 (persist_then_load Persist.stampDate Persist.stampISO
                  Persist.stampTime (Persist.stampTime + Store.MS_PER_DAY)
                  (afterFebruary part_000) Hd Hne)).
  vm_compute. discriminate.
Defined.

(** * Sharing *)

Lemma code_bounded (a : ascii) : (JS.code a < 256)%N.
Proof. apply N_ascii_bounded. Qed.

Lemma hexDigit_code (n : N) :
  (n < 16)%N ->
  JS.code (Share.hexDigit n) = (if (n <? 10)%N then 48 + n else 55 + n)%N.
Proof.
  intros Hn. unfold JS.code, Share.hexDigit. apply N_ascii_embedding.
  destruct (N.ltb_spec n 10); lia.
Qed.

Lemma hexDigit_unreserved (n : N) :
  (n < 16)%N -> Share.isUnreserved (Share.hexDigit n) = true.
Proof.
  intros Hn. unfold Share.isUnreserved. rewrite (hexDigit_code n Hn).
  destruct (N.ltb_spec n 10) as [H|H].
  - replace ((48 <=? 48 + n) && (48 + n <=? 57))%N with true;
      [now rewrite !orb_true_r|].
    symmetry. apply andb_true_iff. split; apply N.leb_le; lia.
  - replace ((65 <=? 55 + n) && (55 + n <=? 90))%N with true; [reflexivity|].
    symmetry. apply andb_true_iff. split; apply N.leb_le; lia.
Qed.

Lemma hexDigit_inj (n m : N) :
  (n < 16)%N -> (m < 16)%N -> Share.hexDigit n = Share.hexDigit m -> n = m.
Proof.
  intros Hn Hm E. apply (f_equal JS.code) in E.
  rewrite (hexDigit_code n Hn), (hexDigit_code m Hm) in E.
  destruct (N.ltb_spec n 10), (N.ltb_spec m 10); lia.
Qed.

Lemma percent_reserved : Share.isUnreserved Share.percent = false.
Proof. reflexivity. Qed.

Lemma high_digit (a : ascii) : (JS.code a / 16 < 16)%N.
Proof.
  apply N.Div0.div_lt_upper_bound. pose proof (code_bounded a). lia.
Qed.

Lemma low_digit (a : ascii) : (JS.code a mod 16 < 16)%N.
Proof. apply N.mod_lt. discriminate. Qed.

Lemma encode_chars_safe (s : string) :
  Forall (fun c => Share.isUnreserved c = true \/ c = Share.percent)
    (Share.chars (Share.encodeURIComponent s)).
Proof.
  induction s as [|a s IH]; [constructor|].
  cbn [Share.encodeURIComponent].
  pose proof (code_bounded a) as Ha.
  destruct (Share.isUnreserved a) eqn:Eu; cbn [Share.chars list_ascii_of_string].
  - constructor; [now left | exact IH].
  - constructor; [now right|].
    constructor; [left; apply hexDigit_unreserved, high_digit|].
    constructor; [left; apply hexDigit_unreserved, low_digit | exact IH].
Qed.

Lemma encode_inj (s1 s2 : string) :
  Share.encodeURIComponent s1 = Share.encodeURIComponent s2 -> s1 = s2.
Proof.
  revert s2. induction s1 as [|a s1 IH]; intros [|b s2] E;
    cbn [Share.encodeURIComponent] in E.
  - reflexivity.
  - destruct (Share.isUnreserved b); discriminate E.
  - destruct (Share.isUnreserved a); discriminate E.
  - pose proof (code_bounded a) as Ha. pose proof (code_bounded b) as Hb.
    destruct (Share.isUnreserved a) eqn:Ea, (Share.isUnreserved b) eqn:Eb.
    + injection E as -> E. f_equal. now apply IH.
    + injection E as -> _. rewrite percent_reserved in Ea. discriminate Ea.
    + injection E as <- _. rewrite percent_reserved in Eb. discriminate Eb.
    + injection E as E1 E2 E. f_equal; [|now apply IH].
      apply hexDigit_inj in E1; [|apply high_digit|apply high_digit].
      apply hexDigit_inj in E2; [|apply low_digit|apply low_digit].
      assert (Ec : JS.code a = JS.code b).
      { rewrite (N.div_mod' (JS.code a) 16), (N.div_mod' (JS.code b) 16).
        now rewrite E1, E2. }
      unfold JS.code in Ec.
      rewrite <- (ascii_N_embedding a), <- (ascii_N_embedding b). now rewrite Ec.
Qed.

Lemma append_cancel (p a b : string) : p ++ a = p ++ b -> a = b.
Proof.
  induction p as [|c p IH]; cbn; intros E; [exact E|].
  injection E as E. now apply IH.
Qed.

(** X13: [shareWhatsApp] opens nothing when the history is empty; otherwise
    it opens the fixed [wa.me] address followed by a text that holds only
    letters, digits, the marks [- _ . ! ~ * ' ( )] and percent signs: no
    blank, line break or ampersand of the summary reaches the address as it
    is. *)
Theorem share_link_is_url_safe (s : State) :
  (history s = [] -> Share.shareWhatsApp s = None)
  /\ (history s <> [] ->
      exists q,
        Share.shareWhatsApp s = Some ("https://wa.me/?text=" ++ q)
        /\ q = Share.encodeURIComponent (Share.text (history s))
        /\ Forall (fun c => Share.isUnreserved c = true \/ c = Share.percent)
             (Share.chars q)).
Proof.
  unfold Share.shareWhatsApp. split.
  - intros ->. reflexivity.
  - intros Hne. destruct (history s) as [|r h] eqn:Eh; [congruence|].
    cbn [List.length Nat.eqb]. eexists. split; [reflexivity|].
    split; [reflexivity | apply encode_chars_safe].
Qed.

(** X14: the address keeps the whole summary: two pages whose share opens
    the same address have the same summary text. *)
Theorem share_link_keeps_the_summary (s1 s2 : State) (url : string) :
  Share.shareWhatsApp s1 = Some url ->
  Share.shareWhatsApp s2 = Some url ->
  Share.text (history s1) = Share.text (history s2).
Proof.
  unfold Share.shareWhatsApp. intros H1 H2.
  destruct (List.length (history s1) =? 0)%nat; [discriminate H1|].
  destruct (List.length (history s2) =? 0)%nat; [discriminate H2|].
  injection H1 as H1. injection H2 as H2. rewrite <- H2 in H1.
  now apply encode_inj, (append_cancel "https://wa.me/?text=").
Qed.

Example share_after_february :
  Share.shareWhatsApp (afterFebruary page_tsx)
  = Some ("https://wa.me/?text=Muthonjia%20Cousins%20Chama%20winners%3A"
          ++ "%0AJanuary%3A%20Cate%20%26%20Dan"
          ++ "%0AFebruary%3A%20Ann%20%26%20Bob").
Proof. vm_compute. reflexivity. Qed.

Lemma share_link_keeps_the_summary_witness :
  Share.text (history (afterFebruary page_tsx))
  = Share.text (history (step page_tsx (Spin 0) (afterFebruary page_tsx))).
Proof.
  assert (H1 : exists url,
             Share.shareWhatsApp (afterFebruary page_tsx) = Some url
             /\ Share.shareWhatsApp
                  (step page_tsx (Spin 0) (afterFebruary page_tsx)) = Some url).
  { eexists. split; vm_compute; reflexivity. }
  destruct H1 as (url & H1 & H2).
  exact (share_link_keeps_the_summary (afterFebruary page_tsx)
           (step page_tsx (Spin 0) (afterFebruary page_tsx)) url H1 H2).
Defined.

(** * The timeout of a spin *)

Lemma step_timerInv (c : Copy) (a : Action) (s : State) :
  validAction a -> timerInv s -> timerInv (step c a s).
Proof.
  unfold timerInv. intros V H. destruct a as [i v|rnd| |now|]; cbn [step].
  - unfold editName. destruct (locked s); exact H.
  - unfold spinWheel.
    destruct (spinning s) eqn:Es; cbn [orb]; [exact H|].
    destruct (remainingNames s) as [|x r] eqn:Er; cbn [List.length Nat.eqb orb];
      [exact H|].
    destruct (2 <=? List.length (tempPair s))%nat; [exact H|].
    cbn [timer]. intros t [= <-]. unfold winnerOf.
    cbn [t_remainingNames t_pickIndex].
    assert (Hlt : (pickIndex rnd (S (List.length r)) < S (List.length r))%nat)
      by (apply pickIndex_lt; [exact V | lia]).
    destruct (nth_error (x :: r) (pickIndex rnd (S (List.length r))))
      as [w|] eqn:E.
    + exists w. split; [reflexivity|].
      apply nth_error_In in E. rewrite <- Er in E.
      apply remainingNames_spec in E. tauto.
    + apply nth_error_None in E. cbn [List.length] in E. lia.
  - unfold spinTimeout. case_eq (timer s); [intros t Et | intros _; exact H].
    case_eq (nth_error (t_remainingNames t) (t_pickIndex t));
      [intros w _ | intros _; exact H].
    cbn [timer]. discriminate.
  - destruct (saveMonthOf_frame c now s) as (_ & Et & _). now rewrite Et.
  - exact H.
Qed.

Lemma reachable_timerInv (c : Copy) (n e o : list string) (l : bool)
    (h : list MonthRecord.t) (s : State) :
  Reachable c (mount n e o l h) s -> timerInv s.
Proof.
  intros R. induction R as [|a s R IH V].
  - intros t Ht. discriminate Ht.
  - now apply step_timerInv.
Qed.

Lemma spinning_has_winner (c : Copy) (n e o : list string) (l : bool)
    (h : list MonthRecord.t) (s : State) :
  Reachable c (mount n e o l h) s -> spinning s = true ->
  exists t w, timer s = Some t /\ winnerOf t = Some w /\ JS.trim w <> "".
Proof.
  intros R Hs. pose proof (reachable_buffer c n e o l h s R) as Hb.
  pose proof (reachable_timerInv c n e o l h s R) as Ht.
  unfold bufferInv in Hb. destruct (timer s) as [t|] eqn:Et.
  - destruct (Ht t Et) as (w & Hw & Hb'). now exists t, w.
  - destruct Hb. congruence.
Qed.

(** X21: a spin in flight always completes: on any page reached from a
    mount, the timeout of a spinning wheel finds its winner, a non-blank name,
    appends it to the draw order and to the pending pair, shows it as the
    current pick and ends the spin, leaving everything else as it is. *)
Theorem spin_completes_with_a_winner
    (c : Copy) (n e o : list string) (l : bool) (h : list MonthRecord.t)
    (s : State) :
  Reachable c (mount n e o l h) s ->
  spinning s = true ->
  exists w,
    JS.trim w <> ""
    /\ spinTimeout s =
         {| names := names s; emojis := emojis s;
            order := order s ++ [w];
            locked := locked s;
            history := history s;
            spinning := false;
            currentPick := Some w;
            tempPair := tempPair s ++ [w];
            timer := None |}.
Proof.
  intros R Hs.
  destruct (spinning_has_winner c n e o l h s R Hs) as (t & w & Et & Hw & Hb).
  exists w. split; [exact Hb|]. unfold spinTimeout. rewrite Et.
  unfold winnerOf in Hw. now rewrite Hw.
Qed.

Lemma spin_completes_with_a_winner_witness :
  exists w,
    JS.trim w <> ""
    /\ order (spinTimeout (midSpin page_tsx))
       = (order (midSpin page_tsx) ++ [w])%list.
Proof.
  assert (Hs : spinning (midSpin page_tsx) = true) by (vm_compute; reflexivity).
  destruct (spin_completes_with_a_winner page_tsx (repeat "" TOTAL_MEMBERS)
              DEFAULT_EMOJIS [] false [] (midSpin page_tsx)
              (midSpin_reachable page_tsx) Hs) as (w & Hw & E).
  exists w. split; [exact Hw|]. now rewrite E.
Defined.

(** X20: a reset does not cancel a spin in flight.  On any page reached from
    a mount, when the reset is pressed while the wheel spins, the timeout
    that follows still announces its winner: the page then has a blank
    roster, is unlocked, and its draw order and pending pair hold that one
    name, which is no name of the roster. *)
Theorem reset_does_not_cancel_the_spin
    (c : Copy) (n e o : list string) (l : bool) (h : list MonthRecord.t)
    (s : State) :
  Reachable c (mount n e o l h) s ->
  spinning s = true ->
  let s' := spinTimeout (resetChama s) in
  exists w,
    JS.trim w <> ""
    /\ order s' = [w] /\ tempPair s' = [w] /\ currentPick s' = Some w
    /\ names s' = repeat "" TOTAL_MEMBERS
    /\ locked s' = false /\ history s' = [] /\ spinning s' = false
    /\ ~ In w (names s').
Proof.
  intros R Hs s'.
  destruct (spinning_has_winner c n e o l h s R Hs) as (t & w & Et & Hw & Hb).
  assert (E : s' = {| names := repeat "" TOTAL_MEMBERS;
                      emojis := DEFAULT_EMOJIS;
                      order := [w]; locked := false; history := [];
                      spinning := false; currentPick := Some w;
                      tempPair := [w]; timer := None |}).
  { unfold s', spinTimeout, resetChama. cbn [timer]. rewrite Et.
    unfold winnerOf in Hw. now rewrite Hw. }
  exists w. rewrite E. cbn [order tempPair currentPick names locked history spinning].
  repeat (split; [first [exact Hb | reflexivity]|]).
  intros Hin. apply repeat_spec in Hin. subst w. apply Hb. reflexivity.
Qed.

Lemma reset_does_not_cancel_the_spin_witness :
  exists w,
    order (spinTimeout (resetChama (midSpin part_000))) = [w]
    /\ names (spinTimeout (resetChama (midSpin part_000)))
       = repeat "" TOTAL_MEMBERS.
Proof.
  assert (Hs : spinning (midSpin part_000) = true) by (vm_compute; reflexivity).
  destruct (reset_does_not_cancel_the_spin part_000 (repeat "" TOTAL_MEMBERS)
              DEFAULT_EMOJIS [] false [] (midSpin part_000)
              (midSpin_reachable part_000) Hs)
    as (w & _ & H1 & _ & _ & H2 & _).
  exists w. split; assumption.
Defined.
